(** * fix_whitespace.py: a Rocq model and its properties

    The script walks a directory tree, collects the [.py] files, and
    rewrites every file in which a line is blank-with-whitespace (W293)
    or carries trailing whitespace (W291).

    Python [str] values are sequences of Unicode code points; they are
    modelled as [list N].  File-system state and the text printed by the
    script are threaded explicitly through a [world] record. *)

From Stdlib Require Import NArith String Ascii DecimalString.
From stdpp Require Import base decidable numbers list sorting gmap.

#[local] Set Warnings "-register-all".

(** ** Python strings *)

Abbreviation str := (list N).

(** A Rocq string literal read as a Python string. *)
Definition py (s : string) : str :=
  map N_of_ascii (list_ascii_of_string s).

Definition LF : N := 10%N.
Definition CR : N := 13%N.

(** [str.isspace] on one code point: the characters [str.strip] and
    [str.rstrip] remove when called without an argument. *)
Definition isspace (c : N) : bool :=
  match c with
  | 9 | 10 | 11 | 12 | 13 | 28 | 29 | 30 | 31 | 32
  | 133 | 160 | 5760 | 8232 | 8233 | 8239 | 8287 | 12288 => true
  | _ => (8192 <=? c)%N && (c <=? 8202)%N
  end%N.

(** Membership of a code point in the argument of [rstrip(chars)]. *)
Definition in_chars (chars : str) (c : N) : bool :=
  existsb (N.eqb c) chars.

(** Removal of the longest suffix whose characters satisfy [f]. *)
Fixpoint rstrip_by (f : N → bool) (s : str) : str :=
  match s with
  | [] => []
  | c :: s' =>
      match rstrip_by f s' with
      | [] => if f c then [] else [c]
      | r => c :: r
      end
  end.

(** Removal of the longest prefix whose characters satisfy [f]. *)
Fixpoint lstrip_by (f : N → bool) (s : str) : str :=
  match s with
  | [] => []
  | c :: s' => if f c then lstrip_by f s' else s
  end.

Definition rstrip (s : str) : str := rstrip_by isspace s.
Definition strip (s : str) : str := lstrip_by isspace (rstrip_by isspace s).
Definition rstrip_chars (chars s : str) : str := rstrip_by (in_chars chars) s.

Definition endswith (s suffix : str) : bool := bool_decide (suffix `suffix_of` s).
Definition startswith (s prefix : str) : bool := bool_decide (prefix `prefix_of` s).

(** ** The per-line rules of [fix_whitespace_in_file] *)

Inductive rule := W293 | W291 | Clean.

Global Instance rule_eq_dec : EqDecision rule.
Proof. solve_decision. Defined.

(** The body of the [for] loop for one [line]: which branch is taken and
    the value assigned to [lines[i]] (the line itself when no branch is). *)
Definition fix_line (line : str) : rule * str :=
  if bool_decide (strip line = []) && bool_decide (1 < length line) then
    (W293, if endswith line [LF] then [LF] else [])
  else if bool_decide (rstrip line ≠ rstrip_chars [CR; LF] (rstrip_chars [LF] line)) then
    (W291,
     if endswith line [CR; LF] then rstrip line ++ [CR; LF]
     else if endswith line [LF] then rstrip line ++ [LF]
     else rstrip line)
  else (Clean, line).

(** The loop [for i, line in enumerate(lines)]: iteration [i] reads
    [lines[i]] and, when a rule applies, stores the new line at index [i]
    and increments that rule's counter. *)
Definition fix_step (st : list str * nat * nat) (i : nat) : list str * nat * nat :=
  let '(lines, w293_count, w291_count) := st in
  match lines !! i with
  | None => st
  | Some line =>
      match fix_line line with
      | (W293, new) => (<[i := new]> lines, S w293_count, w291_count)
      | (W291, new) => (<[i := new]> lines, w293_count, S w291_count)
      | (Clean, _) => st
      end
  end.

Definition fix_lines (lines : list str) : list str * nat * nat :=
  foldl fix_step (lines, 0, 0) (seq 0 (length lines)).

(** ** Files and the outside world *)

Inductive stream := Stdout | Stderr.

Inductive event :=
| EPrint (on : stream) (text : str)
| EOpenW (path : str).

(** What [open] finds at a path: a file that cannot be opened or decoded
    (raising [e]), a readable text file that cannot be opened for writing,
    or an ordinary text file.  [content] is the decoded text. *)
Inductive node :=
| Unreadable (e : str)
| ReadOnly (content e : str)
| Regular (content : str).

(** A directory: the names of its files and its named subdirectories, in
    the order [os.walk] lists them. *)
Inductive tree := Dir (names : list str) (subdirs : list (str * tree)).

(** The outside world: the tree under the working directory, what [open]
    finds at each path, and what the script has done so far.  Paths are
    the keys of [files]: two different path strings stand for two
    different files, so a file reached under a second spelling or through
    a link is not described. *)
Record world := World {
  cwd : tree;
  files : gmap str node;
  log : list event
}.

(** [print(text)] without a [file=] argument writes to [sys.stdout]; here
    standard output accepts every text ([print_x] below is the [print]
    that can raise). *)
Definition print (w : world) (text : str) : world :=
  World (cwd w) (files w) (log w ++ [EPrint Stdout text]).

(** Lower-case hexadecimal digits of [n], [width] of them. *)
Definition hex_digit (d : N) : N :=
  if (d <? 10)%N then (48 + d)%N else (87 + d)%N.

Fixpoint hex_fixed (width : nat) (n : N) : str :=
  match width with
  | 0 => []
  | S k => hex_fixed k (n / 16)%N ++ [hex_digit (n mod 16)%N]
  end.

(** Code points above ASCII that [repr] escapes: the C1 controls, the
    no-break space and the soft hyphen, the spaces and separators
    [isspace] knows, surrogates and the private use area.  (The format
    characters and the unassigned code points, which [repr] escapes too,
    are not listed.) *)
Definition escaped_above_ascii (c : N) : bool :=
  ((128 <=? c) && (c <=? 160))%N || (c =? 173)%N
  || ((127 <? c)%N && isspace c)
  || ((55296 <=? c) && (c <=? 63743))%N.

(** [repr] of one character inside quotes of kind [quote]. *)
Definition repr_char (quote c : N) : str :=
  if (c =? quote)%N || (c =? 92)%N then [92%N; c]
  else if (c =? 9)%N then py "\t"
  else if (c =? 10)%N then py "\n"
  else if (c =? 13)%N then py "\r"
  else if (c <? 32)%N || (c =? 127)%N then py "\x" ++ hex_fixed 2 c
  else if (c <? 127)%N then [c]
  else if escaped_above_ascii c then
    if (c <=? 255)%N then py "\x" ++ hex_fixed 2 c
    else if (c <=? 65535)%N then py "\u" ++ hex_fixed 4 c
    else py "\U" ++ hex_fixed 8 c
  else [c].

(** [repr] of a string: in single quotes, or in double quotes when the
    string holds a single quote and no double one. *)
Definition repr (s : str) : str :=
  let quote := if bool_decide (39%N ∈ s) && negb (bool_decide (34%N ∈ s))
               then 34%N else 39%N in
  [quote] ++ concat (map (repr_char quote) s) ++ [quote].

(** Text of the [FileNotFoundError] raised for a missing path. *)
Definition no_such_file (path : str) : str :=
  py "[Errno 2] No such file or directory: " ++ repr path.

(** Text mode with the default [newline=None]: on input a carriage
    return, alone or followed by a line feed, is read as one line feed. *)
Fixpoint universal_newlines (after_cr : bool) (s : str) : str :=
  match s with
  | [] => []
  | c :: s' =>
      if bool_decide (c = CR) then LF :: universal_newlines true s'
      else if bool_decide (c = LF) then
        if after_cr then universal_newlines false s'
        else LF :: universal_newlines false s'
      else c :: universal_newlines false s'
  end.

(** Lines of a text, each keeping its line feed. *)
Fixpoint split_lines (s : str) : list str :=
  match s with
  | [] => []
  | c :: s' =>
      if bool_decide (c = LF) then [LF] :: split_lines s'
      else match split_lines s' with
           | [] => [[c]]
           | l :: ls => (c :: l) :: ls
           end
  end.

(** [f.readlines()] on a file opened with [open(filepath, 'r')]. *)
Definition readlines (content : str) : list str :=
  split_lines (universal_newlines false content).

(** [open(filepath, 'r', encoding='utf-8')] followed by [readlines]:
    the error raised, or the lines. *)
Definition read_file (w : world) (filepath : str) : str + list str :=
  match files w !! filepath with
  | None => inl (no_such_file filepath)
  | Some (Unreadable e) => inl e
  | Some (ReadOnly content _) => inr (readlines content)
  | Some (Regular content) => inr (readlines content)
  end.

(** [open(filepath, 'w', encoding='utf-8')] followed by [writelines]
    (line feeds are written as they are, as on POSIX): the call is
    logged, and either it raises or the file holds the joined lines.
    The failure described is that of [open], which leaves the file as it
    is; a failure of [writelines] or of closing, after [open] has emptied
    the file, is not described. *)
Definition write_file (w : world) (filepath : str) (lines : list str)
  : world * option str :=
  let w' := World (cwd w) (files w) (log w ++ [EOpenW filepath]) in
  match files w !! filepath with
  | Some (Unreadable e) => (w', Some e)
  | Some (ReadOnly _ e) => (w', Some e)
  | Some (Regular _) | None =>
      (World (cwd w) (<[filepath := Regular (concat lines)]> (files w)) (log w'),
       None)
  end.

Definition fix_whitespace_in_file (w : world) (filepath : str)
  : world * (nat * nat) :=
  match read_file w filepath with
  | inl e =>
      (print w (py "Error reading " ++ filepath ++ py ": " ++ e), (0, 0))
  | inr original_lines =>
      let '(lines, w293_count, w291_count) := fix_lines original_lines in
      if bool_decide (lines ≠ original_lines) then
        match write_file w filepath lines with
        | (w', Some e) =>
            (print w' (py "Error writing " ++ filepath ++ py ": " ++ e), (0, 0))
        | (w', None) => (w', (w293_count, w291_count))
        end
      else (w, (w293_count, w291_count))
  end.

(** ** The file discoverer *)

(** [os.path.join] of two components (POSIX). *)
Definition join (a b : str) : str :=
  if startswith b (py "/") then b
  else if bool_decide (a = []) || endswith a (py "/") then a ++ b
  else a ++ py "/" ++ b.

Definition denylist : list str :=
  [py "__pycache__"; py "venv"; py "env"; py "build"; py "dist"].

(** The filter applied to [dirs] in place. *)
Definition keep_dir (d : str) : bool :=
  negb (startswith d (py ".")) && negb (bool_decide (d ∈ denylist)).

(** [os.walk] visits [root_dir], then each subdirectory left in [dirs]. *)
Fixpoint find_python_files (root_dir : str) (t : tree) : list str :=
  match t with
  | Dir names subdirs =>
      map (join root_dir) (List.filter (λ file, endswith file (py ".py")) names)
      ++ (fix descend (ds : list (str * tree)) : list str :=
            match ds with
            | [] => []
            | (d, sub) :: ds' =>
                (if keep_dir d then find_python_files (join root_dir d) sub
                 else [])
                ++ descend ds'
            end) subdirs
  end.

(** ** The driver *)

(** Code-point order on strings, the order of [sorted]. *)
Fixpoint str_leb (a b : str) : bool :=
  match a, b with
  | [], _ => true
  | _ :: _, [] => false
  | x :: a', y :: b' =>
      if (x <? y)%N then true
      else if (x =? y)%N then str_leb a' b'
      else false
  end.

Definition str_le (a b : str) : Prop := Is_true (str_leb a b).

Definition sorted (l : list str) : list str := merge_sort str_le l.

(** Decimal text of a count, as an f-string renders it. *)
Definition str_of_nat (n : nat) : str :=
  py (NilEmpty.string_of_uint (Nat.to_uint n)).

Definition fixed_line (filepath : str) (w293 w291 : nat) : str :=
  filepath ++ py ": Fixed W293=" ++ str_of_nat w293
           ++ py ", W291=" ++ str_of_nat w291.

Record totals := Totals {
  total_w293 : nat;
  total_w291 : nat;
  files_fixed : nat
}.

(** One iteration of [for filepath in sorted(python_files)]. *)
Definition main_step (st : world * totals) (filepath : str) : world * totals :=
  let '(w, t) := st in
  let '(w, (w293, w291)) := fix_whitespace_in_file w filepath in
  if bool_decide (0 < w293) || bool_decide (0 < w291) then
    (print w (fixed_line filepath w293 w291),
     Totals (total_w293 t + w293) (total_w291 t + w291) (S (files_fixed t)))
  else (w, t).

Definition main_loop (w : world) (python_files : list str) : world * totals :=
  foldl main_step (w, Totals 0 0 0) (sorted python_files).

Definition summary (w : world) (n : nat) (t : totals) : world :=
  let w := print w ([LF] ++ py "Summary:") in
  let w := print w (py "Files processed: " ++ str_of_nat n) in
  let w := print w (py "Files fixed: " ++ str_of_nat (files_fixed t)) in
  let w := print w (py "Total W293 (blank line whitespace) fixed: "
                      ++ str_of_nat (total_w293 t)) in
  let w := print w (py "Total W291 (trailing whitespace) fixed: "
                      ++ str_of_nat (total_w291 t)) in
  print w (py "Total whitespace issues fixed: "
             ++ str_of_nat (total_w293 t + total_w291 t)).

Definition main (w : world) : world :=
  let root_dir := py "." in
  let python_files := find_python_files root_dir (cwd w) in
  let w := print w (py "Found " ++ str_of_nat (length python_files)
                      ++ py " Python files") in
  let w := print w (py "Fixing whitespace issues..." ++ [LF]) in
  let '(w, t) := main_loop w python_files in
  summary w (length python_files) t.

(** ** Printing that can fail

    [print] encodes its text for standard output and raises
    [UnicodeEncodeError] when the text cannot be encoded: a path with an
    undecodable byte reaches the script as a string holding a lone
    surrogate, which UTF-8 refuses.  No [print] of the script is guarded,
    not those of the two [except] handlers either.  The definitions above
    are the script on a standard output that accepts every text.  The ones
    below take what standard output accepts as a parameter and let the
    exception through as the source does: out of the call, and out of the
    loop of [main]. *)

Inductive exn := UnicodeEncodeError (text : str).

(** A call that returns, or is left by an exception, and the world then. *)
Inductive run (A : Type) :=
| Returns (w : world) (a : A)
| Raises (w : world) (e : exn).

Arguments Returns {A} w a.
Arguments Raises {A} w e.

Definition bind {A B : Type} (m : run A) (k : world → A → run B) : run B :=
  match m with
  | Returns w a => k w a
  | Raises w e => Raises w e
  end.


Section stdout.
Variable accepts : str → bool.

Definition print_x (w : world) (text : str) : run unit :=
  if accepts text then Returns (print w text) tt
  else Raises w (UnicodeEncodeError text).

Definition fix_whitespace_in_file_x (w : world) (filepath : str)
  : run (nat * nat) :=
  match read_file w filepath with
  | inl e =>
      bind (print_x w (py "Error reading " ++ filepath ++ py ": " ++ e))
           (λ w _, Returns w (0, 0))
  | inr original_lines =>
      let '(lines, w293_count, w291_count) := fix_lines original_lines in
      if bool_decide (lines ≠ original_lines) then
        match write_file w filepath lines with
        | (w', Some e) =>
            bind (print_x w' (py "Error writing " ++ filepath ++ py ": " ++ e))
                 (λ w _, Returns w (0, 0))
        | (w', None) => Returns w' (w293_count, w291_count)
        end
      else Returns w (w293_count, w291_count)
  end.

(** One iteration of the loop of [main]. *)
Definition main_step_x (w : world) (t : totals) (filepath : str) : run totals :=
  bind (fix_whitespace_in_file_x w filepath) (λ w counts,
    let '(w293, w291) := counts in
    if bool_decide (0 < w293) || bool_decide (0 < w291) then
      bind (print_x w (fixed_line filepath w293 w291)) (λ w _,
        Returns w (Totals (total_w293 t + w293) (total_w291 t + w291)
                          (S (files_fixed t))))
    else Returns w t).

(** The loop of [main] over the paths still to take: an exception ends it. *)
Fixpoint main_loop_x (w : world) (t : totals) (paths : list str) : run totals :=
  match paths with
  | [] => Returns w t
  | filepath :: rest =>
      bind (main_step_x w t filepath) (λ w t, main_loop_x w t rest)
  end.

Definition summary_x (w : world) (n : nat) (t : totals) : run unit :=
  bind (print_x w ([LF] ++ py "Summary:")) (λ w _,
  bind (print_x w (py "Files processed: " ++ str_of_nat n)) (λ w _,
  bind (print_x w (py "Files fixed: " ++ str_of_nat (files_fixed t))) (λ w _,
  bind (print_x w (py "Total W293 (blank line whitespace) fixed: "
                     ++ str_of_nat (total_w293 t))) (λ w _,
  bind (print_x w (py "Total W291 (trailing whitespace) fixed: "
                     ++ str_of_nat (total_w291 t))) (λ w _,
  print_x w (py "Total whitespace issues fixed: "
               ++ str_of_nat (total_w293 t + total_w291 t))))))).

Definition main_x (w : world) : run unit :=
  let root_dir := py "." in
  let python_files := find_python_files root_dir (cwd w) in
  bind (print_x w (py "Found " ++ str_of_nat (length python_files)
                     ++ py " Python files")) (λ w _,
  bind (print_x w (py "Fixing whitespace issues..." ++ [LF])) (λ w _,
  bind (main_loop_x w (Totals 0 0 0) (sorted python_files)) (λ w t,
  summary_x w (length python_files) t))).

End stdout.

(** ** Vocabulary of the properties *)

(** The terminator of a line: carriage return + line feed, line feed, or
    none. *)
Definition eol (line : str) : str :=
  if endswith line [CR; LF] then [CR; LF]
  else if endswith line [LF] then [LF]
  else [].

(** The three ways through the loop body. *)
Inductive fix_line_spec (line : str) : rule * str → Prop :=
| fix_line_blank :
    strip line = [] → 1 < length line →
    fix_line_spec line (W293, if endswith line [LF] then [LF] else [])
| fix_line_trailing :
    ¬ (strip line = [] ∧ 1 < length line) →
    rstrip line ≠ rstrip_chars [CR; LF] (rstrip_chars [LF] line) →
    fix_line_spec line (W291, rstrip line ++ eol line)
| fix_line_clean :
    ¬ (strip line = [] ∧ 1 < length line) →
    rstrip line = rstrip_chars [CR; LF] (rstrip_chars [LF] line) →
    fix_line_spec line (Clean, line).

Definition new_line (line : str) : str := (fix_line line).2.

Definition count_rule (r : rule) (lines : list str) : nat :=
  length (List.filter (λ line, bool_decide ((fix_line line).1 = r)) lines).

Definition no_eol (body : str) : Prop := Forall (λ c, c ≠ LF ∧ c ≠ CR) body.

(** Every line but the last ends in its only line feed, and no line holds
    a carriage return. *)
Inductive text_lines : list str → Prop :=
| text_lines_nil : text_lines []
| text_lines_last body : no_eol body → text_lines [body]
| text_lines_cons body rest :
    no_eol body → text_lines rest → text_lines ((body ++ [LF]) :: rest).

Global Instance stream_eq_dec : EqDecision stream.
Proof. solve_decision. Defined.

(** The events a call appended to the log. *)
Definition new_events (w w' : world) : list event :=
  drop (length (log w)) (log w').

(** The lines printed on one stream. *)
Definition printed_on (on : stream) (evs : list event) : list str :=
  omap (λ ev, match ev with
              | EPrint on' text => if decide (on' = on) then Some text else None
              | EOpenW _ => None
              end) evs.

(** [open] raises while the fixer handles [filepath]: for reading, or for
    writing once a line has changed.  The index is the diagnostic the
    handler builds. *)
Inductive open_fails (w : world) (filepath : str) : str → Prop :=
| open_read_fails e :
    read_file w filepath = inl e →
    open_fails w filepath (py "Error reading " ++ filepath ++ py ": " ++ e)
| open_write_fails lines e :
    read_file w filepath = inr lines →
    (fix_lines lines).1.1 ≠ lines →
    (write_file w filepath (fix_lines lines).1.1).2 = Some e →
    open_fails w filepath (py "Error writing " ++ filepath ++ py ": " ++ e).

(** [file] is listed in the directory reached from [t] through the
    subdirectories named [ds]. *)
Inductive has_file : tree → list str → str → Prop :=
| has_file_here names subdirs file :
    file ∈ names → has_file (Dir names subdirs) [] file
| has_file_below names subdirs d sub ds file :
    (d, sub) ∈ subdirs → has_file sub ds file →
    has_file (Dir names subdirs) (d :: ds) file.

(** The path [os.walk] and [os.path.join] build for that file. *)
Definition path_of (root_dir : str) (ds : list str) (file : str) : str :=
  join (foldl join root_dir ds) file.

(** What one call does to the stored files, which events it adds, and
    what it returns; none of it depends on the directory tree or on the
    log so far. *)
Definition outcome (fs : gmap str node) (filepath : str)
  : gmap str node * list event * (nat * nat) :=
  let r := fix_whitespace_in_file (World (Dir [] []) fs []) filepath in
  (files r.1, log r.1, r.2).

(** The events of a run over [paths] in order: for each path those of the
    call, then the per-file line if at least one fix was returned. *)
Fixpoint report (fs : gmap str node) (paths : list str) : list event :=
  match paths with
  | [] => []
  | filepath :: rest =>
      let '(fs', evs, (a, b)) := outcome fs filepath in
      evs
      ++ (if decide (1 ≤ a + b)
          then [EPrint Stdout (fixed_line filepath a b)] else [])
      ++ report fs' rest
  end.

(** A world holding one ordinary file, [a.py] in the working directory. *)
Definition one_file (content : str) : world :=
  World (Dir [py "a.py"] []) {[ py "./a.py" := Regular content ]} [].

Definition crlf_blank : str := py "  " ++ [CR; LF].
Definition lone_space : str := py " ".

(** A file that can be read but not opened for writing, holding one line
    with trailing whitespace. *)
Definition read_only_file : world :=
  World (Dir [py "a.py"] [])
        {[ py "./a.py" := ReadOnly (py "x  " ++ [LF]) (py "read-only") ]} [].


Definition small_tree : tree :=
  Dir [py "a.py"; py "notes.txt"]
      [(py ".git", Dir [py "hook.py"] []);
       (py "pkg", Dir [py "m.py"] [(py "venv", Dir [py "v.py"] [])])].

(** The working directory of a small project: one file to fix, one that
    cannot be read, and files in directories the walk skips. *)
Definition small_world : world :=
  World small_tree
        {[ py "./a.py" :=
             Regular (py "import os  " ++ [LF] ++ [LF] ++ py "   " ++ [LF]
                      ++ py "x = 1" ++ [LF]);
           py "./pkg/m.py" := Unreadable (py "denied");
           py "./.git/hook.py" := Regular (py "   " ++ [LF]);
           py "./pkg/venv/v.py" := Regular (py "v = 1  " ++ [LF]) ]} [].

(** A call on [filepath] would change no file and return (0, 0). *)
Definition settled (fs : gmap str node) (filepath : str) : Prop :=
  (outcome fs filepath).1.1 = fs ∧ (outcome fs filepath).2 = (0, 0).

(** A line with its trailing whitespace removed and its terminator put
    back. *)
Definition without_trailing (line : str) : str := rstrip line ++ eol line.

(** The characters of a text that are not whitespace, in order. *)
Definition ink (s : str) : str := List.filter (λ c, negb (isspace c)) s.

Definition all_space (s : str) : Prop := Forall (λ c, isspace c = true) s.

(** The counts the calls of a run over [paths] return, in order. *)
Fixpoint call_counts (fs : gmap str node) (paths : list str)
  : list (nat * nat) :=
  match paths with
  | [] => []
  | filepath :: rest =>
      (outcome fs filepath).2 :: call_counts (outcome fs filepath).1.1 rest
  end.



(** * Properties *)

(** ** Stripping *)

Section strip_by.
Variable f : N → bool.

Lemma rstrip_by_snoc (s : str) (c : N) :
  rstrip_by f (s ++ [c]) = if f c then rstrip_by f s else s ++ [c].
Proof.
  induction s as [|a s IH]; simpl.
  - by destruct (f c).
  - rewrite IH. destruct (f c); [done|].
    by destruct s.
Qed.

Lemma rstrip_by_app_all (s t : str) :
  Forall (λ c, f c = true) t → rstrip_by f (s ++ t) = rstrip_by f s.
Proof.
  induction t as [|c t IH] using rev_ind; intros Ht.
  - by rewrite app_nil_r.
  - rewrite Forall_app, Forall_singleton in Ht. destruct Ht as [Ht Hc].
    by rewrite app_assoc, rstrip_by_snoc, Hc, IH.
Qed.

Lemma rstrip_by_split (s : str) :
  ∃ t, s = rstrip_by f s ++ t ∧ Forall (λ c, f c = true) t.
Proof.
  induction s as [|c s IH] using rev_ind.
  - by exists [].
  - rewrite rstrip_by_snoc. destruct (f c) eqn:Hc.
    + destruct IH as (t & Hs & Ht). exists (t ++ [c]). split.
      * by rewrite app_assoc, <-Hs.
      * by rewrite Forall_app, Forall_singleton.
    + exists []. by rewrite app_nil_r.
Qed.

Lemma rstrip_by_last (s r : str) (c : N) :
  rstrip_by f s = r ++ [c] → f c = false.
Proof.
  induction s as [|x s IH] using rev_ind; simpl.
  - by destruct r.
  - rewrite rstrip_by_snoc. destruct (f x) eqn:Hx; [done|].
    intros [_ ->]%app_inj_tail. done.
Qed.

Lemma rstrip_by_nil (s : str) :
  rstrip_by f s = [] ↔ Forall (λ c, f c = true) s.
Proof.
  split.
  - intros Hs. destruct (rstrip_by_split s) as (t & Heq & Ht).
    rewrite Hs in Heq. by subst.
  - intros Hs. by rewrite <-(app_nil_l s), rstrip_by_app_all.
Qed.

Lemma lstrip_by_nil (s : str) :
  lstrip_by f s = [] ↔ Forall (λ c, f c = true) s.
Proof.
  induction s as [|c s IH]; simpl.
  - split; [constructor|done].
  - destruct (f c) eqn:Hc.
    + rewrite IH. split; [by constructor|by inversion 1].
    + split; [done|]. inversion 1; congruence.
Qed.

Lemma rstrip_by_prefix (s : str) : rstrip_by f s `prefix_of` s.
Proof. destruct (rstrip_by_split s) as (t & Heq & _). by exists t. Qed.

End strip_by.

(** Stripping a smaller class of characters after [f] changes nothing. *)
Lemma rstrip_by_weaker (f g : N → bool) (s : str) :
  (∀ c, g c = true → f c = true) →
  rstrip_by g (rstrip_by f s) = rstrip_by f s.
Proof.
  intros Hgf. destruct (rstrip_by f s) as [|x r _] eqn:Hs using rev_ind; [done|].
  apply rstrip_by_last in Hs. rewrite rstrip_by_snoc.
  destruct (g x) eqn:Hg; [|done]. apply Hgf in Hg. congruence.
Qed.

Lemma rstrip_by_idemp (f : N → bool) (s : str) :
  rstrip_by f (rstrip_by f s) = rstrip_by f s.
Proof. by apply rstrip_by_weaker. Qed.

Lemma strip_nil (s : str) : strip s = [] ↔ Forall (λ c, isspace c = true) s.
Proof.
  unfold strip. split.
  - intros Hall%lstrip_by_nil. apply rstrip_by_nil.
    destruct (rstrip_by isspace s) as [|c r _] eqn:Hs using rev_ind; [done|].
    apply rstrip_by_last in Hs.
    rewrite Forall_app, Forall_singleton in Hall. destruct Hall; congruence.
  - intros Hall%rstrip_by_nil. by rewrite Hall.
Qed.

Lemma strip_nil_rstrip (s : str) : strip s = [] ↔ rstrip s = [].
Proof. unfold rstrip. by rewrite strip_nil, rstrip_by_nil. Qed.

Lemma in_chars_crlf_isspace c : in_chars [CR; LF] c = true → isspace c = true.
Proof.
  unfold in_chars; simpl. rewrite !orb_true_iff, !N.eqb_eq.
  intros [->|[->|?]]; done.
Qed.

Lemma in_chars_lf_isspace c : in_chars [LF] c = true → isspace c = true.
Proof.
  unfold in_chars; simpl. rewrite !orb_true_iff, !N.eqb_eq.
  intros [->|?]; done.
Qed.

(** ** One line *)

Lemma fix_lineP (line : str) : fix_line_spec line (fix_line line).
Proof.
  unfold fix_line.
  destruct (decide (strip line = [] ∧ 1 < length line)) as [[Hs Hl]|Hn].
  - rewrite !bool_decide_eq_true_2 by done. by constructor.
  - assert (bool_decide (strip line = []) && bool_decide (1 < length line)
            = false) as ->.
    { apply andb_false_iff. rewrite !bool_decide_eq_false.
      destruct (decide (strip line = [])); [right|left]; tauto. }
    destruct (decide (rstrip line
                      = rstrip_chars [CR; LF] (rstrip_chars [LF] line)))
      as [Hr|Hr].
    + rewrite bool_decide_eq_false_2 by tauto. by constructor.
    + rewrite bool_decide_eq_true_2 by done.
      replace (if endswith line [CR; LF] then _ else _)
        with (rstrip line ++ eol line).
      * by constructor.
      * unfold eol. repeat case_match; by rewrite ?app_nil_r.
Qed.

Lemma eol_cases (line : str) : eol line = [CR; LF] ∨ eol line = [LF] ∨ eol line = [].
Proof. unfold eol. repeat case_match; auto. Qed.

Lemma eol_isspace (line : str) : Forall (λ c, isspace c = true) (eol line).
Proof. destruct (eol_cases line) as [->|[->| ->]]; repeat constructor. Qed.

Lemma eol_length (line : str) : length (eol line) ≤ length line.
Proof.
  unfold eol, endswith. repeat case_bool_decide; simpl; try lia.
  all: match goal with H : _ `suffix_of` _ |- _ => by apply suffix_length in H end.
Qed.

(** What [rstrip()] and [rstrip('\n').rstrip('\r\n')] make of a stripped
    line followed by a terminator. *)
Lemma rstrip_stripped_eol (s t : str) :
  rstrip (rstrip s ++ eol t) = rstrip s.
Proof.
  unfold rstrip. rewrite rstrip_by_app_all by apply eol_isspace.
  apply rstrip_by_idemp.
Qed.

Lemma rstrip_chars_stripped_eol (s t : str) :
  rstrip_chars [CR; LF] (rstrip_chars [LF] (rstrip s ++ eol t)) = rstrip s.
Proof.
  unfold rstrip_chars, rstrip.
  destruct (eol_cases t) as [->|[->| ->]].
  - change [CR; LF] with ([CR] ++ [LF]) at 2.
    rewrite app_assoc, rstrip_by_snoc. simpl.
    rewrite (rstrip_by_snoc _ _ CR). simpl.
    rewrite rstrip_by_snoc. simpl.
    apply rstrip_by_weaker, in_chars_crlf_isspace.
  - rewrite rstrip_by_snoc. simpl.
    rewrite (rstrip_by_weaker isspace) by apply in_chars_lf_isspace.
    apply rstrip_by_weaker, in_chars_crlf_isspace.
  - rewrite app_nil_r.
    rewrite (rstrip_by_weaker isspace) by apply in_chars_lf_isspace.
    apply rstrip_by_weaker, in_chars_crlf_isspace.
Qed.

(** A line counted under either rule is rewritten to a different line. *)
Lemma fix_line_changed (line : str) :
  (fix_line line).1 ≠ Clean ↔ (fix_line line).2 ≠ line.
Proof.
  destruct (fix_lineP line) as [Hs Hl|Hn Hr|Hn Hr]; simpl.
  - split; [intros _ Heq|done]. rewrite <-Heq in Hl.
    destruct (endswith _ _); simpl in Hl; lia.
  - split; [intros _ Heq|done]. apply Hr.
    rewrite <-Heq at 2. by rewrite rstrip_chars_stripped_eol.
  - split; [done|congruence].
Qed.

Lemma fix_line_clean_id (line : str) :
  (fix_line line).1 = Clean → (fix_line line).2 = line.
Proof.
  intros Hc. destruct (decide ((fix_line line).2 = line)) as [|Hne]; [done|].
  by apply fix_line_changed in Hne.
Qed.

(** The rewritten line matches neither rule. *)
Lemma fix_line_idemp (line : str) :
  fix_line (fix_line line).2 = (Clean, (fix_line line).2).
Proof.
  destruct (fix_lineP line) as [Hs Hl|Hn Hr|Hn Hr]; simpl.
  - by destruct (endswith _ _).
  - destruct (fix_lineP (rstrip line ++ eol line)) as [Hs' Hl'|Hn' Hr'|Hn' Hr'].
    + exfalso. apply strip_nil_rstrip in Hs'.
      rewrite rstrip_stripped_eol in Hs'.
      assert (length line ≤ 1) as Hlen.
      { apply strip_nil_rstrip in Hs'. apply Nat.nlt_ge. tauto. }
      rewrite Hs' in Hl'. simpl in Hl'.
      pose proof (eol_length line). 
      assert (eol line = [CR; LF]) as Heol.
      { destruct (eol_cases line) as [->|[Heq|Heq]]; [done|..];
          rewrite Heq in Hl'; simpl in Hl'; lia. }
      rewrite Heol in *. simpl in *. lia.
    + exfalso. apply Hr'.
      by rewrite rstrip_stripped_eol, rstrip_chars_stripped_eol.
    + done.
  - destruct (fix_lineP line) as [Hs' Hl'|Hn' Hr'|Hn' Hr']; [tauto|done|done].
Qed.

(** ** The loop over the lines of a file *)

(** The loop, started at index [length done] with counters [a] and [b],
    leaves the lines before that index alone. *)
Lemma fix_step_from (done todo : list str) (a b : nat) :
  foldl fix_step (done ++ todo, a, b) (seq (length done) (length todo))
  = (done ++ map new_line todo,
     a + count_rule W293 todo, b + count_rule W291 todo).
Proof.
  revert done a b. induction todo as [|line todo IH]; intros done a b; simpl.
  - by rewrite !Nat.add_0_r.
  - unfold count_rule, new_line. simpl.
    rewrite list_lookup_middle by done.
    assert (∀ new, <[length done:=new]> (done ++ line :: todo)
                   = (done ++ [new]) ++ todo) as Hins.
    { intros new. rewrite <-(Nat.add_0_r (length done)), insert_app_r.
      by rewrite <-app_assoc. }
    assert (∀ new, length (done ++ [new]) = S (length done)) as Hlen.
    { intros new. rewrite length_app. simpl. lia. }
    pose proof (fix_line_clean_id line) as Hid.
    destruct (fix_line line) as [[] new]; simpl in *.
    + rewrite Hins, <-Hlen with new, IH, <-app_assoc.
      unfold count_rule, new_line. simpl. by rewrite ?Nat.add_succ_r.
    + rewrite Hins, <-Hlen with new, IH, <-app_assoc.
      unfold count_rule, new_line. simpl. by rewrite ?Nat.add_succ_r.
    + rewrite Hid by done.
      replace (done ++ line :: todo) with ((done ++ [line]) ++ todo)
        by by rewrite <-app_assoc.
      rewrite <-Hlen with line, IH, <-app_assoc. done.
Qed.

Lemma fix_lines_map (lines : list str) :
  fix_lines lines
  = (map new_line lines, count_rule W293 lines, count_rule W291 lines).
Proof. apply (fix_step_from [] lines 0 0). Qed.

Lemma count_rule_0 (r : rule) (lines : list str) :
  count_rule r lines = 0 ↔ Forall (λ line, (fix_line line).1 ≠ r) lines.
Proof.
  unfold count_rule. induction lines as [|line lines IH]; simpl.
  - split; [constructor|done].
  - rewrite Forall_cons, <-IH. case_bool_decide; simpl; [|tauto].
    split; [done|tauto].
Qed.

Lemma map_new_line_id (lines : list str) :
  map new_line lines = lines ↔ Forall (λ line, (fix_line line).1 = Clean) lines.
Proof.
  induction lines as [|line lines IH]; simpl.
  - split; [constructor|done].
  - rewrite Forall_cons, <-IH. split.
    + intros [= Hl Hls]. split; [|done].
      destruct (decide ((fix_line line).1 = Clean)) as [|Hne]; [done|].
      by apply fix_line_changed in Hne.
    + intros [Hl ->]. unfold new_line. by rewrite (fix_line_clean_id line Hl).
Qed.

Lemma clean_count_0 (lines : list str) :
  Forall (λ line, (fix_line line).1 = Clean) lines →
  count_rule W293 lines = 0 ∧ count_rule W291 lines = 0.
Proof.
  intros Hc. rewrite !count_rule_0. split.
  all: eapply Forall_impl; [exact Hc|]; simpl; congruence.
Qed.

(** The lines are unchanged exactly when both counts are zero. *)
Lemma fix_lines_unchanged (lines : list str) :
  (fix_lines lines).1.1 = lines
  ↔ (fix_lines lines).1.2 = 0 ∧ (fix_lines lines).2 = 0.
Proof.
  rewrite fix_lines_map. simpl. rewrite map_new_line_id, !count_rule_0.
  rewrite <-Forall_and. apply Forall_proper; [|done].
  intros line. destruct ((fix_line line).1); split; try done; intros []; done.
Qed.

Lemma unchanged_iff_counts (lines : list str) :
  map new_line lines = lines
  ↔ count_rule W293 lines = 0 ∧ count_rule W291 lines = 0.
Proof.
  pose proof (fix_lines_unchanged lines) as Hu. by rewrite fix_lines_map in Hu.
Qed.

(** ** Lines as [readlines] returns them *)

Lemma universal_newlines_no_cr (after_cr : bool) (s : str) :
  Forall (λ c, c ≠ CR) (universal_newlines after_cr s).
Proof.
  revert after_cr. induction s as [|c s IH]; intros after_cr; simpl.
  - constructor.
  - repeat case_bool_decide; subst.
    + by constructor.
    + destruct after_cr; [done|]. by constructor.
    + by constructor.
Qed.

Lemma universal_newlines_id (s : str) :
  Forall (λ c, c ≠ CR) s → universal_newlines false s = s.
Proof.
  induction 1 as [|c s Hc _ IH]; simpl; [done|].
  rewrite bool_decide_eq_false_2 by done.
  case_bool_decide; subst; by rewrite IH.
Qed.

Lemma split_lines_text (s : str) :
  Forall (λ c, c ≠ CR) s → text_lines (split_lines s).
Proof.
  induction 1 as [|c s Hc _ IH]; simpl; [constructor|].
  case_bool_decide as Hlf; subst.
  - apply (text_lines_cons []); [constructor|done].
  - inversion IH as [|body Hb Heq|body rest Hb Hrest Heq].
    + apply text_lines_last. by repeat constructor.
    + apply text_lines_last. by constructor.
    + apply (text_lines_cons (c :: body)); [by constructor|done].
Qed.

Lemma readlines_text (content : str) : text_lines (readlines content).
Proof. apply split_lines_text, universal_newlines_no_cr. Qed.

Lemma no_eol_rstrip (body : str) : no_eol body → no_eol (rstrip body).
Proof.
  unfold no_eol. intros Hb.
  destruct (rstrip_by_split isspace body) as (t & Heq & _).
  rewrite Heq in Hb. by apply Forall_app in Hb as [? _].
Qed.

Lemma eol_body_lf (body : str) : no_eol body → eol (body ++ [LF]) = [LF].
Proof.
  intros Hb. unfold eol, endswith.
  rewrite bool_decide_eq_false_2, bool_decide_eq_true_2; [done|..].
  - apply suffix_app_r. done.
  - intros [k Hk]. change [CR; LF] with ([CR] ++ [LF]) in Hk.
    rewrite app_assoc in Hk. apply app_inj_tail in Hk as [-> _].
    unfold no_eol in Hb. rewrite Forall_app, Forall_singleton in Hb. tauto.
Qed.

Lemma eol_body (body : str) : no_eol body → eol body = [].
Proof.
  unfold no_eol, eol, endswith. intros Hb.
  rewrite !bool_decide_eq_false_2; [done|..].
  - intros [k ->]. rewrite Forall_app, Forall_singleton in Hb. tauto.
  - intros [k ->]. rewrite Forall_app, Forall_cons, Forall_singleton in Hb.
    tauto.
Qed.

Lemma new_line_body_lf (body : str) :
  no_eol body → ∃ body', no_eol body' ∧ new_line (body ++ [LF]) = body' ++ [LF].
Proof.
  intros Hb. unfold new_line.
  destruct (fix_lineP (body ++ [LF])) as [Hs Hl|Hn Hr|Hn Hr]; simpl.
  - exists []. split; [constructor|].
    unfold endswith. rewrite bool_decide_eq_true_2; [done|].
    by apply suffix_app_r.
  - exists (rstrip body). split; [by apply no_eol_rstrip|].
    rewrite eol_body_lf by done. unfold rstrip. by rewrite rstrip_by_snoc.
  - by exists body.
Qed.

Lemma new_line_body (body : str) : no_eol body → no_eol (new_line body).
Proof.
  intros Hb. unfold new_line.
  destruct (fix_lineP body) as [Hs Hl|Hn Hr|Hn Hr]; simpl.
  - pose proof (eol_body body Hb) as He. unfold eol in He.
    destruct (endswith body [CR; LF]); [done|].
    destruct (endswith body [LF]); [done|]. constructor.
  - rewrite eol_body, app_nil_r by done. by apply no_eol_rstrip.
  - done.
Qed.

Lemma text_lines_fixed (lines : list str) :
  text_lines lines → text_lines (map new_line lines).
Proof.
  induction 1 as [|body Hb|body rest Hb _ IH]; simpl.
  - constructor.
  - apply text_lines_last. by apply new_line_body.
  - destruct (new_line_body_lf body Hb) as (body' & Hb' & ->).
    by constructor.
Qed.

Lemma split_lines_body (body : str) :
  no_eol body → split_lines body = if decide (body = []) then [] else [body].
Proof.
  induction 1 as [|c body [Hc _] _ IH]; simpl; [done|].
  rewrite bool_decide_eq_false_2 by done. rewrite IH.
  by destruct (decide (body = [])) as [->|].
Qed.

Lemma split_lines_body_lf (body rest : str) :
  no_eol body →
  split_lines (body ++ LF :: rest) = (body ++ [LF]) :: split_lines rest.
Proof.
  induction 1 as [|c body [Hc _] _ IH]; simpl.
  - done.
  - rewrite bool_decide_eq_false_2 by done. by rewrite IH.
Qed.

Lemma text_lines_no_cr (lines : list str) :
  text_lines lines → Forall (λ c, c ≠ CR) (concat lines).
Proof.
  induction 1 as [|body Hb|body rest Hb _ IH]; simpl.
  - constructor.
  - rewrite app_nil_r. eapply Forall_impl; [exact Hb|]. simpl. tauto.
  - rewrite !Forall_app. split_and!; [|by repeat constructor|done].
    eapply Forall_impl; [exact Hb|]. simpl. tauto.
Qed.

(** Reading back what [writelines] wrote yields the written lines, short
    of an empty last one. *)
Lemma readlines_concat (lines : list str) :
  text_lines lines → readlines (concat lines) ⊆ lines.
Proof.
  intros Ht. unfold readlines.
  rewrite universal_newlines_id by by apply text_lines_no_cr.
  induction Ht as [|body Hb|body rest Hb _ IH]; simpl.
  - done.
  - rewrite app_nil_r, split_lines_body by done. case_decide; set_solver.
  - rewrite <-app_assoc. simpl. rewrite split_lines_body_lf by done.
    intros x [->|Hx]%elem_of_cons; [left|right; by apply IH].
Qed.

(** Every line read back from a file the fixer wrote matches no rule. *)
Lemma reread_clean (content : str) :
  Forall (λ line, (fix_line line).1 = Clean)
         (readlines (concat (map new_line (readlines content)))).
Proof.
  apply Forall_forall. intros line Hin.
  apply readlines_concat in Hin;
    [|apply text_lines_fixed, readlines_text].
  apply list_elem_of_fmap in Hin as (line0 & -> & _).
  unfold new_line. by rewrite fix_line_idemp.
Qed.

(** ** One file *)

(** [fix_whitespace_in_file] with its loop replaced by the per-line view. *)
Lemma fix_whitespace_in_file_eq (w : world) (filepath : str) :
  fix_whitespace_in_file w filepath =
  match read_file w filepath with
  | inl e =>
      (print w (py "Error reading " ++ filepath ++ py ": " ++ e), (0, 0))
  | inr lines =>
      if bool_decide (map new_line lines ≠ lines) then
        match write_file w filepath (map new_line lines) with
        | (w', Some e) =>
            (print w' (py "Error writing " ++ filepath ++ py ": " ++ e), (0, 0))
        | (w', None) => (w', (count_rule W293 lines, count_rule W291 lines))
        end
      else (w, (count_rule W293 lines, count_rule W291 lines))
  end.
Proof.
  unfold fix_whitespace_in_file.
  destruct (read_file w filepath) as [e|lines]; [done|].
  by rewrite fix_lines_map.
Qed.

Lemma fix_whitespace_in_file_clean (w : world) (filepath : str) (lines : list str) :
  read_file w filepath = inr lines →
  Forall (λ line, (fix_line line).1 = Clean) lines →
  fix_whitespace_in_file w filepath = (w, (0, 0)).
Proof.
  intros Hr Hc. rewrite fix_whitespace_in_file_eq, Hr.
  destruct (clean_count_0 lines Hc) as [-> ->].
  apply map_new_line_id in Hc.
  by rewrite bool_decide_eq_false_2 by (by intros []).
Qed.

(** Run on the world the first run left, the fixer returns (0, 0) and
    leaves every file's content as it was. *)
Lemma fix_twice (w : world) (filepath : str) :
  let w1 := (fix_whitespace_in_file w filepath).1 in
  (fix_whitespace_in_file w1 filepath).2 = (0, 0)
  ∧ files (fix_whitespace_in_file w1 filepath).1 = files w1.
Proof.
  cbv zeta. rewrite (fix_whitespace_in_file_eq w).
  unfold read_file, write_file.
  destruct (files w !! filepath) as [[e|content e|content]|] eqn:Hf.
  - rewrite fix_whitespace_in_file_eq. unfold read_file. simpl. by rewrite Hf.
  - case_bool_decide as Hch.
    + rewrite fix_whitespace_in_file_eq. unfold read_file, write_file. simpl.
      rewrite Hf. by rewrite bool_decide_eq_true_2 by done.
    + cbn [fst snd]. erewrite fix_whitespace_in_file_clean; [done| |by apply map_new_line_id].
      unfold read_file. simpl. by rewrite Hf.
  - case_bool_decide as Hch.
    + cbn [fst snd]. erewrite fix_whitespace_in_file_clean;
        [done| |apply (reread_clean content)].
      unfold read_file. simpl. by rewrite lookup_insert_eq.
    + cbn [fst snd]. erewrite fix_whitespace_in_file_clean; [done| |by apply map_new_line_id].
      unfold read_file. simpl. by rewrite Hf.
  - rewrite fix_whitespace_in_file_eq. unfold read_file. simpl. by rewrite Hf.
Qed.

(** ** Effects of one call *)

Lemma new_events_app (w : world) (c : tree) (fs : gmap str node) (evs : list event) :
  new_events w (World c fs (log w ++ evs)) = evs.
Proof. unfold new_events. simpl. by rewrite drop_app_length. Qed.

Lemma new_events_refl (w : world) : new_events w w = [].
Proof. unfold new_events. by rewrite drop_all. Qed.

(** What a failed call does: one diagnostic on standard output, counts
    (0, 0), no file touched. *)
Lemma open_fails_result (w : world) (filepath msg : str) :
  open_fails w filepath msg →
  ∃ evs, fix_whitespace_in_file w filepath
         = (World (cwd w) (files w) (log w ++ evs), (0, 0))
         ∧ printed_on Stdout evs = [msg] ∧ printed_on Stderr evs = [].
Proof.
  intros [e Hr|lines e Hr Hch Hw]; unfold fix_whitespace_in_file; rewrite Hr.
  - by exists [EPrint Stdout (py "Error reading " ++ filepath ++ py ": " ++ e)].
  - destruct (fix_lines lines) as [[lines' a] b]. simpl in *.
    rewrite bool_decide_eq_true_2 by done.
    destruct (write_file w filepath lines') as [w' [e'|]] eqn:Hwf; [|done].
    simpl in Hw. injection Hw as ->.
    exists [EOpenW filepath;
            EPrint Stdout (py "Error writing " ++ filepath ++ py ": " ++ e)].
    split; [|done]. unfold write_file in Hwf.
    destruct (files w !! filepath) as [[]|]; simplify_eq; unfold print; simpl;
      by rewrite <-app_assoc.
Qed.

(** After a failed call the driver's loop goes on with the next path,
    its totals unchanged. *)
Lemma main_step_no_fix (w w' : world) (t : totals) (filepath : str) :
  fix_whitespace_in_file w filepath = (w', (0, 0)) →
  main_step (w, t) filepath = (w', t).
Proof. intros Hf. unfold main_step. by rewrite Hf. Qed.

Lemma map_new_line_changed (lines : list str) :
  Exists (λ line, new_line line ≠ line) lines ↔ map new_line lines ≠ lines.
Proof.
  induction lines as [|line lines IH]; simpl.
  - split; [inversion 1|done].
  - rewrite Exists_cons, IH. split.
    + intros [Hne|Hne] [= Hl Hls]; done.
    + intros Hne. destruct (decide (new_line line = line)) as [Heq|]; [|by left].
      right. intros Hls. apply Hne. congruence.
Qed.

(** The three ways a call on a readable file ends: nothing to change;
    a change and a failed opening for writing; a change written back. *)
Lemma fix_whitespace_in_file_cases (w : world) (filepath : str)
    (lines : list str) :
  read_file w filepath = inr lines →
  (map new_line lines = lines
   ∧ fix_whitespace_in_file w filepath = (w, (0, 0)))
  ∨ (map new_line lines ≠ lines
     ∧ ∃ e, (write_file w filepath (map new_line lines)).2 = Some e
            ∧ fix_whitespace_in_file w filepath
              = (World (cwd w) (files w)
                   (log w ++ [EOpenW filepath;
                              EPrint Stdout (py "Error writing " ++ filepath
                                             ++ py ": " ++ e)]),
                 (0, 0)))
  ∨ (map new_line lines ≠ lines
     ∧ (write_file w filepath (map new_line lines)).2 = None
     ∧ fix_whitespace_in_file w filepath
       = (World (cwd w)
            (<[filepath := Regular (concat (map new_line lines))]> (files w))
            (log w ++ [EOpenW filepath]),
          (count_rule W293 lines, count_rule W291 lines))).
Proof.
  intros Hr. rewrite fix_whitespace_in_file_eq, Hr.
  case_bool_decide as Hch.
  - right. unfold write_file, print.
    destruct (files w !! filepath) as [[e|content e|content]|]; simpl.
    + left. split; [done|]. exists e. by rewrite <-app_assoc.
    + left. split; [done|]. exists e. by rewrite <-app_assoc.
    + by right.
    + by right.
  - left. split; [done|].
    by apply map_new_line_id, clean_count_0 in Hch as [-> ->].
Qed.

(** ** The discoverer *)

Lemma tree_nested_ind (P : tree → Prop) :
  (∀ names subdirs, Forall (λ ds, P ds.2) subdirs → P (Dir names subdirs)) →
  ∀ t, P t.
Proof.
  intros HP. fix IH 1. intros [names subdirs]. apply HP.
  induction subdirs as [|[d sub] subdirs IHs]; constructor; [apply IH|apply IHs].
Qed.

Lemma find_python_files_eq (root_dir : str) (names : list str)
    (subdirs : list (str * tree)) :
  find_python_files root_dir (Dir names subdirs)
  = map (join root_dir) (List.filter (λ file, endswith file (py ".py")) names)
    ++ flat_map (λ ds, if keep_dir ds.1
                       then find_python_files (join root_dir ds.1) ds.2
                       else []) subdirs.
Proof.
  simpl. f_equal.
  induction subdirs as [|[d sub] subdirs IH]; simpl; [done|by rewrite IH].
Qed.

Lemma keep_dir_spec (d : str) :
  keep_dir d = true ↔ ¬ py "." `prefix_of` d ∧ d ∉ denylist.
Proof.
  unfold keep_dir, startswith.
  rewrite andb_true_iff, !negb_true_iff, !bool_decide_eq_false. done.
Qed.

Lemma find_python_files_elem (t : tree) : ∀ (root_dir p : str),
  p ∈ find_python_files root_dir t ↔
  ∃ ds file, has_file t ds file ∧ Forall (λ d, keep_dir d = true) ds
             ∧ endswith file (py ".py") = true ∧ p = path_of root_dir ds file.
Proof.
  induction t as [names subdirs IH] using tree_nested_ind. intros root_dir p.
  rewrite find_python_files_eq, elem_of_app. split.
  - intros [Hin|Hin].
    + apply list_elem_of_fmap in Hin as (file & -> & Hin).
      apply list_elem_of_In, filter_In in Hin as [Hin Hpy].
      exists [], file. split_and!; [|done..].
      constructor. by apply list_elem_of_In.
    + apply list_elem_of_In, in_flat_map in Hin as ([d sub] & Hsub & Hin).
      apply list_elem_of_In in Hsub, Hin. simpl in Hin.
      destruct (keep_dir d) eqn:Hk; [|by apply elem_of_nil in Hin].
      rewrite Forall_forall in IH.
      apply (IH _ Hsub) in Hin as (ds & file & Hf & Hds & Hpy & ->).
      exists (d :: ds), file. split_and!; [|by constructor|done..].
      by apply has_file_below with sub.
  - intros (ds & file & Hf & Hds & Hpy & ->).
    inversion Hf as [? ? ? Hin|? ? d sub ds' ? Hsub Hf']; subst.
    + left. apply list_elem_of_fmap. exists file. split; [done|].
      apply list_elem_of_In, filter_In. split; [by apply list_elem_of_In|done].
    + right. apply Forall_cons in Hds as [Hd Hds].
      apply list_elem_of_In, in_flat_map. exists (d, sub).
      split; [by apply list_elem_of_In|]. simpl. rewrite Hd.
      apply list_elem_of_In. rewrite Forall_forall in IH.
      apply (IH _ Hsub). by exists ds', file.
Qed.

(** A subdirectory whose name is filtered out contributes nothing,
    whatever it holds. *)
Lemma excluded_dir_ignored (root_dir d : str) (names : list str) (sub : tree)
    (before after : list (str * tree)) :
  keep_dir d = false →
  find_python_files root_dir (Dir names (before ++ (d, sub) :: after))
  = find_python_files root_dir (Dir names (before ++ after)).
Proof.
  intros Hk. rewrite !find_python_files_eq, !flat_map_app. simpl.
  by rewrite Hk.
Qed.

(** C8. The discoverer returns exactly the paths of the [.py] files that
    are reached from the root through directories none of which has a name
    beginning with a dot or a name on the denylist; a subdirectory with
    such a name (as [.git] at the root) contributes nothing, whatever it
    holds. *)
Theorem find_python_files_exact (root_dir : str) (t : tree) (p : str) :
  (p ∈ find_python_files root_dir t ↔
   ∃ ds file,
     has_file t ds file
     ∧ Forall (λ d, ¬ py "." `prefix_of` d
                    ∧ d ∉ [py "__pycache__"; py "venv"; py "env";
                           py "build"; py "dist"]) ds
     ∧ py ".py" `suffix_of` file
     ∧ p = path_of root_dir ds file)
  ∧ (∀ d names sub before after,
       py "." `prefix_of` d
       ∨ d ∈ [py "__pycache__"; py "venv"; py "env"; py "build"; py "dist"] →
       find_python_files root_dir (Dir names (before ++ (d, sub) :: after))
       = find_python_files root_dir (Dir names (before ++ after))).
Proof.
  split.
  - rewrite find_python_files_elem.
    apply exist_proper; intros ds. apply exist_proper; intros file.
    unfold endswith. rewrite bool_decide_eq_true.
    enough (Forall (λ d, keep_dir d = true) ds
            ↔ Forall (λ d, ¬ py "." `prefix_of` d ∧ d ∉ denylist) ds) as ->
      by done.
    apply Forall_proper; [|done]. intros d. apply keep_dir_spec.
  - intros d names sub before after Hd. apply excluded_dir_ignored.
    destruct (keep_dir d) eqn:Hk; [|done].
    apply keep_dir_spec in Hk as [Hdot Hdeny]. by destruct Hd.
Qed.

(** C10. The filter on directory names is never applied to the root: for
    any root the [.py] files listed directly in it are returned, and so
    for the root [.] that [main] passes, a name that the filter would
    drop. *)
Theorem root_is_always_walked (root_dir : str) (names : list str)
    (subdirs : list (str * tree)) (file : str) :
  file ∈ names →
  py ".py" `suffix_of` file →
  join root_dir file ∈ find_python_files root_dir (Dir names subdirs)
  ∧ keep_dir (py ".") = false
  ∧ join (py ".") file ∈ find_python_files (py ".") (Dir names subdirs).
Proof.
  intros Hin Hpy.
  assert (∀ r, join r file ∈ find_python_files r (Dir names subdirs)) as Hall.
  { intros r. apply find_python_files_elem.
    exists [], file. split_and!; [by constructor|done| |done].
    unfold endswith. by apply bool_decide_eq_true. }
  split_and!; done.
Qed.

(** ** The driver *)

Lemma str_leb_total (a b : str) : str_leb a b = true ∨ str_leb b a = true.
Proof.
  revert b. induction a as [|x a IH]; intros [|y b]; simpl; auto.
  destruct (N.ltb_spec x y), (N.ltb_spec y x), (N.eqb_spec x y),
    (N.eqb_spec y x); auto; lia.
Qed.

Lemma str_leb_trans (a b c : str) :
  str_leb a b = true → str_leb b c = true → str_leb a c = true.
Proof.
  revert b c. induction a as [|x a IH]; intros [|y b] [|z c]; simpl; try done.
  destruct (N.ltb_spec x y), (N.ltb_spec y z), (N.ltb_spec x z),
    (N.eqb_spec x y), (N.eqb_spec y z), (N.eqb_spec x z);
    try done; try lia; eauto.
Qed.

Lemma str_leb_antisym (a b : str) :
  str_leb a b = true → str_leb b a = true → a = b.
Proof.
  revert b. induction a as [|x a IH]; intros [|y b]; simpl; try done.
  destruct (N.ltb_spec x y), (N.ltb_spec y x), (N.eqb_spec x y),
    (N.eqb_spec y x); try done; try lia.
  intros Hab Hba. subst. f_equal. by apply IH.
Qed.

Global Instance str_le_trans : Transitive str_le.
Proof.
  intros a b c Hab%Is_true_true Hbc%Is_true_true.
  apply Is_true_true. by apply str_leb_trans with b.
Qed.

Global Instance str_le_total : Total str_le.
Proof.
  intros a b. destruct (str_leb_total a b); [left|right]; by apply Is_true_true.
Qed.

Global Instance str_le_antisym : AntiSymm (=) str_le.
Proof.
  intros a b Hab%Is_true_true Hba%Is_true_true. by apply str_leb_antisym.
Qed.


Lemma sorted_Permutation (l : list str) : sorted l ≡ₚ l.
Proof. apply merge_sort_Permutation. Qed.


Lemma fix_whitespace_in_file_outcome (w : world) (filepath : str) :
  let '(fs', evs, counts) := outcome (files w) filepath in
  fix_whitespace_in_file w filepath
  = (World (cwd w) fs' (log w ++ evs), counts).
Proof.
  unfold outcome. rewrite !fix_whitespace_in_file_eq.
  unfold read_file, write_file, print. simpl.
  destruct w as [c fs l]. simpl.
  destruct (fs !! filepath) as [[e|content e|content]|]; simpl.
  - done.
  - case_bool_decide; simpl; [by rewrite <-app_assoc|by rewrite app_nil_r].
  - case_bool_decide; simpl; [done|by rewrite app_nil_r].
  - done.
Qed.

Lemma main_step_outcome (w : world) (t : totals) (filepath : str) :
  let '(fs', evs, (a, b)) := outcome (files w) filepath in
  ∃ t',
    main_step (w, t) filepath
    = (World (cwd w) fs'
         (log w ++ evs
          ++ if decide (1 ≤ a + b)
             then [EPrint Stdout (fixed_line filepath a b)] else []), t').
Proof.
  pose proof (fix_whitespace_in_file_outcome w filepath) as Hfix.
  destruct (outcome (files w) filepath) as [[fs' evs] [a b]].
  unfold main_step. rewrite Hfix.
  destruct (decide (1 ≤ a + b)) as [Hab|Hab].
  - assert (bool_decide (0 < a) || bool_decide (0 < b) = true) as ->.
    { apply orb_true_iff. rewrite !bool_decide_eq_true. lia. }
    eexists. unfold print. simpl. by rewrite <-app_assoc.
  - assert (bool_decide (0 < a) || bool_decide (0 < b) = false) as ->.
    { apply orb_false_iff. rewrite !bool_decide_eq_false. lia. }
    eexists. by rewrite app_nil_r.
Qed.

Lemma main_loop_report (paths : list str) : ∀ (w : world) (t : totals),
  log (foldl main_step (w, t) paths).1 = log w ++ report (files w) paths
  ∧ cwd (foldl main_step (w, t) paths).1 = cwd w.
Proof.
  induction paths as [|filepath rest IH]; intros w t; cbn [foldl report].
  - by rewrite app_nil_r.
  - pose proof (main_step_outcome w t filepath) as Hstep.
    destruct (outcome (files w) filepath) as [[fs' evs] [a b]].
    destruct Hstep as [t' ->].
    destruct (IH (World (cwd w) fs'
                    (log w ++ evs
                     ++ if decide (1 ≤ a + b)
                        then [EPrint Stdout (fixed_line filepath a b)]
                        else [])) t') as [-> ->].
    simpl. by rewrite <-!app_assoc.
Qed.


(** ** Terminators and whitespace-only lines *)

(** Outside rule 1 applied to a carriage-return + line-feed line, the
    rewritten line keeps the terminator of the line read. *)
Lemma terminator_preserved (line : str) :
  (fix_line line).1 ≠ W293 ∨ eol line ≠ [CR; LF] →
  eol (new_line line) = eol line.
Proof.
  assert (∀ r c, rstrip line = r ++ [c] → c ≠ LF ∧ c ≠ CR) as Hlast.
  { intros r c Hr%rstrip_by_last. split; intros ->; done. }
  assert (¬ [LF] `suffix_of` rstrip line
          ∧ ¬ [CR; LF] `suffix_of` rstrip line
          ∧ ¬ [CR; LF] `suffix_of` rstrip line ++ [LF]) as (Hn1 & Hn2 & Hn3).
  { split_and!.
    - intros [k Hk]. by destruct (Hlast _ _ Hk).
    - intros [k Hk]. change [CR; LF] with ([CR] ++ [LF]) in Hk.
      rewrite app_assoc in Hk. by destruct (Hlast _ _ Hk).
    - intros [k Hk]. change [CR; LF] with ([CR] ++ [LF]) in Hk.
      rewrite app_assoc in Hk. apply app_inj_tail in Hk as [Hk _].
      by destruct (Hlast _ _ Hk). }
  unfold new_line. intros Hor.
  destruct (fix_lineP line) as [Hs Hl|Hn Hr|Hn Hr]; simpl in *.
  - destruct Hor as [|Hor]; [done|]. unfold eol in *.
    destruct (endswith line [CR; LF]); [done|].
    by destruct (endswith line [LF]).
  - destruct (eol_cases line) as [He|[He|He]]; rewrite He.
    + unfold eol, endswith. rewrite bool_decide_eq_true_2; [done|].
      by apply suffix_app_r.
    + unfold eol, endswith.
      rewrite bool_decide_eq_false_2, bool_decide_eq_true_2; [done| |done].
      by apply suffix_app_r.
    + rewrite app_nil_r. unfold eol, endswith.
      by rewrite !bool_decide_eq_false_2.
  - done.
Qed.

(** The rule the code applies to a whitespace-only line. *)
Lemma whitespace_only_rule (line : str) :
  Forall (λ c, isspace c = true) line →
  (1 < length line → (fix_line line).1 = W293)
  ∧ ((fix_line line).1 = W293 ↔ 1 < length line).
Proof.
  intros Hws%strip_nil.
  destruct (fix_lineP line) as [Hs Hl|Hn Hr|Hn Hr]; simpl.
  - done.
  - split; [tauto|]. split; [done|tauto].
  - split; [tauto|]. split; [done|tauto].
Qed.

(** Rule 1 as the code tests it. *)
Lemma blank_rule_iff (line : str) :
  (fix_line line).1 = W293 ↔ strip line = [] ∧ 1 < length line.
Proof.
  destruct (fix_lineP line) as [Hs Hl|Hn Hr|Hn Hr]; simpl; [done|..];
    split; done.
Qed.

(** No line is counted under both rules. *)
Lemma rules_exclusive (lines : list str) :
  count_rule W293 lines + count_rule W291 lines ≤ length lines.
Proof.
  unfold count_rule. induction lines as [|line lines IH]; simpl; [done|].
  destruct ((fix_line line).1); simpl; lia.
Qed.

(** ** Concrete runs *)

(** Sample lines through the loop body. *)
Example three_spaces_then_newline :
  fix_line (py "   " ++ [LF]) = (W293, [LF]).
Proof. done. Qed.

Example foo_with_trailing_spaces :
  fix_line (py "foo   " ++ [LF]) = (W291, py "foo" ++ [LF]).
Proof. done. Qed.

Example foo_without_trailing_spaces :
  fix_line (py "foo" ++ [LF]) = (Clean, py "foo" ++ [LF]).
Proof. done. Qed.

Example last_line_without_terminator :
  fix_line (py "bar   ") = (W291, py "bar").
Proof. done. Qed.

Example crlf_line_with_trailing_spaces :
  fix_line (py "foo  " ++ [CR; LF]) = (W291, py "foo" ++ [CR; LF]).
Proof. done. Qed.

Example fixed_line_text :
  fixed_line (py "./a.py") 1 12 = py "./a.py: Fixed W293=1, W291=12".
Proof. done. Qed.

(** A whole run: what is printed, and what the files hold afterwards. *)
Example small_world_run :
  printed_on Stdout (log (main small_world))
  = [py "Found 2 Python files";
     py "Fixing whitespace issues..." ++ [LF];
     py "./a.py: Fixed W293=1, W291=1";
     py "Error reading ./pkg/m.py: denied";
     [LF] ++ py "Summary:";
     py "Files processed: 2";
     py "Files fixed: 1";
     py "Total W293 (blank line whitespace) fixed: 1";
     py "Total W291 (trailing whitespace) fixed: 1";
     py "Total whitespace issues fixed: 2"]
  ∧ printed_on Stderr (log (main small_world)) = []
  ∧ files (main small_world) !! py "./a.py"
    = Some (Regular (py "import os" ++ [LF] ++ [LF] ++ [LF]
                     ++ py "x = 1" ++ [LF]))
  ∧ files (main small_world) !! py "./.git/hook.py"
    = Some (Regular (py "   " ++ [LF])).
Proof. by vm_compute. Qed.

(** C1. A whitespace-only line ending in carriage return + line feed is
    rewritten by rule 1 to a bare line feed: the carriage return is lost,
    at the level of one line and in the file written back. *)
Theorem crlf_blank_line_becomes_lf :
  eol crlf_blank = [CR; LF]
  ∧ fix_line crlf_blank = (W293, [LF])
  ∧ eol (new_line crlf_blank) = [LF]
  ∧ fix_whitespace_in_file (one_file crlf_blank) (py "./a.py")
    = (World (Dir [py "a.py"] []) {[ py "./a.py" := Regular [LF] ]}
             [EOpenW (py "./a.py")], (1, 0)).
Proof.
  split_and!; [done..|]. by vm_compute.
Qed.

(** C2. A last line made of one space and no terminator is whitespace
    only, yet it is counted under W291: the call on a file ending in such
    a line returns (0, 1). *)
Theorem lone_space_counted_as_trailing :
  Forall (λ c, isspace c = true) lone_space
  ∧ fix_line lone_space = (W291, [])
  ∧ readlines (py "x" ++ [LF] ++ lone_space) = [py "x" ++ [LF]; lone_space]
  ∧ (fix_whitespace_in_file
       (one_file (py "x" ++ [LF] ++ lone_space)) (py "./a.py")).2
    = (0, 1).
Proof.
  split_and!; [by repeat constructor|done..|]. by vm_compute.
Qed.

(** C3. Rule 1 tests the length of the line against 1, not against the
    length of its terminator: a lone space without terminator strips to
    nothing and is longer than its (empty) terminator, yet rule 1 does not
    apply, and a file ending in such a line gets no W293 count; and a line
    that is exactly carriage return + line feed is counted and rewritten. *)
Theorem blank_rule_compares_with_one :
  strip lone_space = []
  ∧ length (eol lone_space) < length lone_space
  ∧ (fix_line lone_space).1 ≠ W293
  ∧ (fix_whitespace_in_file
       (one_file (py "x" ++ [LF] ++ lone_space)) (py "./a.py")).2.1 = 0
  ∧ eol [CR; LF] = [CR; LF]
  ∧ fix_line [CR; LF] = (W293, [LF]).
Proof.
  split_and!; try done. simpl. lia.
Qed.

(** In the small tree [pkg/m.py] is found and [.git] counts for nothing. *)
Lemma find_python_files_exact_witness :
  py "./pkg/m.py" ∈ find_python_files (py ".") small_tree
  ∧ find_python_files (py ".") small_tree
    = find_python_files (py ".")
        (Dir [py "a.py"; py "notes.txt"]
             [(py "pkg", Dir [py "m.py"] [(py "venv", Dir [py "v.py"] [])])]).
Proof.
  split.
  - apply (proj1 (find_python_files_exact (py ".") small_tree (py "./pkg/m.py"))).
    exists [py "pkg"], (py "m.py"). split_and!.
    + apply has_file_below with (Dir [py "m.py"] [(py "venv", Dir [py "v.py"] [])]).
      * apply list_elem_of_further, list_elem_of_here.
      * apply has_file_here, list_elem_of_here.
    + constructor; [|constructor]. split.
      * intros [k Hk]. discriminate Hk.
      * intros Hin. apply list_elem_of_In in Hin. simpl in Hin.
        repeat destruct Hin as [Hin|Hin]; try discriminate Hin. done.
    + by exists (py "m").
    + done.
  - apply (proj2 (find_python_files_exact (py ".") small_tree (py "x"))
             (py ".git") [py "a.py"; py "notes.txt"] (Dir [py "hook.py"] []) []).
    left. by exists (py "git").
Defined.

(** [a.py] in the root [.] is found. *)
Lemma root_is_always_walked_witness :
  py "a.py" ∈ [py "a.py"; py "notes.txt"]
  ∧ py ".py" `suffix_of` py "a.py"
  ∧ py "./a.py" ∈ find_python_files (py ".") small_tree.
Proof.
  assert (py "a.py" ∈ [py "a.py"; py "notes.txt"]) as Hin
    by apply list_elem_of_here.
  assert (py ".py" `suffix_of` py "a.py") as Hpy by (by exists (py "a")).
  split_and!; [exact Hin|exact Hpy|].
  exact (proj1 (root_is_always_walked (py ".") _
                  [(py ".git", Dir [py "hook.py"] []);
                   (py "pkg", Dir [py "m.py"] [(py "venv", Dir [py "v.py"] [])])]
                  _ Hin Hpy)).
Defined.


(** ** A second run *)

Lemma settled_iff (fs : gmap str node) (filepath : str) :
  settled fs filepath ↔
  ∀ content, fs !! filepath = Some (Regular content) →
             map new_line (readlines content) = readlines content.
Proof.
  unfold settled, outcome. rewrite fix_whitespace_in_file_eq.
  unfold read_file, write_file. simpl.
  destruct (fs !! filepath) as [[e|content e|content]|] eqn:Hf; simpl.
  - done.
  - case_bool_decide as Hch; simpl; [done|].
    apply map_new_line_id, clean_count_0 in Hch as [-> ->]. done.
  - case_bool_decide as Hch; simpl.
    + split.
      * intros [_ [= H293 H291]]. exfalso. apply Hch.
        by apply unchanged_iff_counts.
      * intros Hc. by specialize (Hc content eq_refl).
    + split; [by intros _ ? [= <-]|intros _].
      apply map_new_line_id, clean_count_0 in Hch as [-> ->]. done.
  - done.
Qed.

Lemma outcome_lookup_ne (fs : gmap str node) (p q : str) :
  p ≠ q → (outcome fs q).1.1 !! p = fs !! p.
Proof.
  intros Hne. unfold outcome. rewrite fix_whitespace_in_file_eq.
  unfold read_file, write_file. simpl.
  destruct (fs !! q) as [[e|content e|content]|]; simpl; try done.
  - by case_bool_decide.
  - case_bool_decide; simpl; [|done]. by rewrite lookup_insert_ne.
Qed.

Lemma settled_after (fs : gmap str node) (filepath : str) :
  settled (outcome fs filepath).1.1 filepath.
Proof.
  pose proof (fix_twice (World (Dir [] []) fs []) filepath) as Htwice.
  cbv zeta in Htwice.
  pose proof (fix_whitespace_in_file_outcome
                (fix_whitespace_in_file (World (Dir [] []) fs []) filepath).1
                filepath) as Hout.
  unfold settled. fold (outcome fs filepath) in *.
  change (files (fix_whitespace_in_file (World (Dir [] []) fs []) filepath).1)
    with (outcome fs filepath).1.1 in *.
  destruct (outcome (outcome fs filepath).1.1 filepath) as [[fs' evs] counts].
  rewrite Hout in Htwice. simpl in *. destruct Htwice as [-> ->]. done.
Qed.

Lemma settled_kept (fs : gmap str node) (p q : str) :
  settled fs p → settled (outcome fs q).1.1 p.
Proof.
  intros Hp. destruct (decide (p = q)) as [->|Hne]; [apply settled_after|].
  apply settled_iff. intros content. rewrite outcome_lookup_ne by done.
  by apply settled_iff.
Qed.

Lemma main_step_files (w : world) (t : totals) (filepath : str) :
  files (main_step (w, t) filepath).1 = (outcome (files w) filepath).1.1
  ∧ cwd (main_step (w, t) filepath).1 = cwd w.
Proof.
  pose proof (main_step_outcome w t filepath) as Hstep.
  destruct (outcome (files w) filepath) as [[fs' evs] [a b]].
  by destruct Hstep as [t' ->].
Qed.

(** After the loop every path it took is settled. *)
Lemma main_loop_settles (paths : list str) : ∀ (done : list str) (st : world * totals),
  Forall (settled (files st.1)) done →
  Forall (settled (files (foldl main_step st paths).1)) (done ++ paths).
Proof.
  induction paths as [|p paths IH]; intros done [w t] Hdone; cbn [foldl].
  - by rewrite app_nil_r.
  - rewrite cons_middle, app_assoc. apply IH.
    destruct (main_step (w, t) p) as [w1 t1] eqn:Hstep.
    pose proof (main_step_files w t p) as [Hfs _]. rewrite Hstep in Hfs.
    simpl in *. rewrite Hfs. apply Forall_app. split.
    + eapply Forall_impl; [exact Hdone|]. intros d. apply settled_kept.
    + apply Forall_singleton, settled_after.
Qed.

(** Over settled paths the loop changes no file and no total. *)
Lemma main_loop_settled (paths : list str) : ∀ (w : world) (t : totals),
  Forall (settled (files w)) paths →
  files (foldl main_step (w, t) paths).1 = files w
  ∧ (foldl main_step (w, t) paths).2 = t.
Proof.
  induction paths as [|p paths IH]; intros w t Hs; cbn [foldl]; [done|].
  apply Forall_cons in Hs as [[Hfs Hc] Hs].
  pose proof (fix_whitespace_in_file_outcome w p) as Hfix.
  destruct (outcome (files w) p) as [[fs' evs] counts].
  simpl in Hfs, Hc. subst.
  rewrite (main_step_no_fix _ _ _ _ Hfix).
  exact (IH (World (cwd w) (files w) (log w ++ evs)) t Hs).
Qed.

Lemma summary_files (w : world) (n : nat) (t : totals) :
  files (summary w n t) = files w ∧ cwd (summary w n t) = cwd w.
Proof. done. Qed.

Lemma main_files (w : world) :
  files (main w)
  = files (main_loop w (find_python_files (py ".") (cwd w))).1
  ∧ cwd (main w) = cwd w.
Proof.
  unfold main, main_loop.
  set (paths := sorted _).
  set (w0 := print (print w _) _).
  destruct (foldl main_step (w0, _) paths) as [w1 t1] eqn:Hloop.
  destruct (main_loop_report paths w0 (Totals 0 0 0)) as [_ Hcwd].
  rewrite Hloop in Hcwd. simpl in *. rewrite Hcwd. split; [|done].
  assert (∀ paths st1 st2, files st1.1 = files st2.1 →
            files (foldl main_step st1 paths).1
            = files (foldl main_step st2 paths).1) as Hframe.
  { clear. induction paths as [|p paths IH]; intros [w1 t1] [w2 t2] Hfs;
      cbn [foldl]; [done|]. apply IH.
    destruct (main_step_files w1 t1 p) as [-> _].
    destruct (main_step_files w2 t2 p) as [-> _]. simpl in Hfs. by rewrite Hfs. }
  rewrite <-(Hframe paths (w0, Totals 0 0 0) (w, Totals 0 0 0)) by done.
  by rewrite Hloop.
Qed.

(** C4. The fixer is idempotent.  Run again on the world a first call
    left, a call returns (0, 0) and leaves the content of every file as it
    was; and after one whole run, a second run over the same tree counts
    no fix and changes no file. *)
Theorem fixer_idempotent (w : world) :
  (∀ filepath,
     let w1 := (fix_whitespace_in_file w filepath).1 in
     (fix_whitespace_in_file w1 filepath).2 = (0, 0)
     ∧ files (fix_whitespace_in_file w1 filepath).1 = files w1)
  ∧ (let w1 := main w in
     (main_loop w1 (find_python_files (py ".") (cwd w1))).2 = Totals 0 0 0
     ∧ files (main w1) = files w1).
Proof.
  split; [intros filepath; apply fix_twice|]. cbv zeta.
  destruct (main_files w) as [Hfs Hcwd].
  destruct (main_files (main w)) as [Hfs2 _].
  rewrite Hfs2, Hcwd. unfold main_loop.
  set (paths := sorted (find_python_files (py ".") (cwd w))).
  assert (Forall (settled (files (main w))) paths) as Hs.
  { rewrite Hfs. unfold main_loop. fold paths.
    apply (main_loop_settles paths [] (w, Totals 0 0 0)). constructor. }
  destruct (main_loop_settled paths (main w) (Totals 0 0 0) Hs) as [-> ->].
  done.
Qed.

(** * Further properties *)

(** ** Lines as the loop meets them *)

(** A suffix of whitespace lies within what [rstrip] removes. *)
Lemma space_suffix_stripped (s k : str) :
  k `suffix_of` s → all_space k →
  ∃ t, s = rstrip s ++ t ++ k.
Proof.
  intros Hk Hws. destruct (rstrip_by_split isspace s) as (t & Hs & Ht).
  fold (rstrip s) in Hs. remember (rstrip s) as r eqn:Hr.
  assert (t `suffix_of` s) as Hts by (by exists r).
  destruct (suffix_weak_total _ _ _ Hk Hts) as [[j Hj]|[j Hj]].
  - exists j. by rewrite <-Hj.
  - exists []. simpl. destruct Hk as [i Hi].
    rewrite Hi, Hj, app_assoc in Hs. apply app_inv_tail in Hs.
    destruct j as [|x j _] using rev_ind.
    + simpl in Hj. rewrite app_nil_r in Hs. by rewrite Hi, Hj, Hs.
    + exfalso. rewrite app_assoc in Hs. rewrite <-Hs in Hr.
      symmetry in Hr. apply rstrip_by_last in Hr.
      rewrite Hj in Hws. unfold all_space in Hws.
      rewrite !Forall_app, Forall_singleton in Hws. destruct Hws as [[_ ?] _].
      congruence.
Qed.

Lemma eol_suffix (line : str) : eol line `suffix_of` line.
Proof.
  unfold eol, endswith. repeat case_bool_decide; try done. apply suffix_nil.
Qed.

Lemma new_line_sublist (line : str) : new_line line `sublist_of` line.
Proof.
  unfold new_line.
  destruct (fix_lineP line) as [Hs Hl|Hn Hr|Hn Hr]; simpl; [| |done].
  - unfold endswith. case_bool_decide as Hlf; [|apply sublist_nil_l].
    destruct Hlf as [k ->]. by apply sublist_inserts_l.
  - destruct (space_suffix_stripped line (eol line)) as (t & Ht);
      [apply eol_suffix|apply eol_isspace|].
    rewrite Ht at 3. apply sublist_app; [done|].
    by apply sublist_inserts_l.
Qed.

Lemma rstrip_new_line (line : str) : rstrip (new_line line) = rstrip line.
Proof.
  unfold new_line.
  destruct (fix_lineP line) as [Hs Hl|Hn Hr|Hn Hr]; simpl; [| |done].
  - apply strip_nil_rstrip in Hs. rewrite Hs. by destruct (endswith _ _).
  - apply rstrip_stripped_eol.
Qed.

(** X1. Whatever the line, the loop body only deletes characters of it,
    and what is left after [rstrip] is what was there before: no character
    that is not trailing whitespace is touched, and no line grows. *)
Theorem only_trailing_whitespace_removed (line : str) :
  new_line line `sublist_of` line
  ∧ rstrip (new_line line) = rstrip line
  ∧ length (new_line line) ≤ length line.
Proof.
  split_and!.
  - apply new_line_sublist.
  - apply rstrip_new_line.
  - apply sublist_length, new_line_sublist.
Qed.

(** Stripping line feeds and carriage returns from a body that holds
    neither does nothing. *)
Lemma rstrip_chars_body (chars body : str) :
  (∀ c, in_chars chars c = true → c = LF ∨ c = CR) →
  no_eol body → rstrip_chars chars body = body.
Proof.
  intros Hc Hb. unfold rstrip_chars.
  destruct body as [|x body _] using rev_ind; [done|].
  unfold no_eol in Hb. rewrite Forall_app, Forall_singleton in Hb.
  rewrite rstrip_by_snoc. destruct (in_chars chars x) eqn:Hx; [|done].
  apply Hc in Hx. tauto.
Qed.

Lemma in_chars_lf_inv c : in_chars [LF] c = true → c = LF ∨ c = CR.
Proof.
  unfold in_chars; simpl. rewrite orb_true_iff, N.eqb_eq. intros [->|?]; auto.
  done.
Qed.

Lemma in_chars_crlf_inv c : in_chars [CR; LF] c = true → c = LF ∨ c = CR.
Proof.
  unfold in_chars; simpl. rewrite !orb_true_iff, !N.eqb_eq.
  intros [->|[->|?]]; auto. done.
Qed.

Lemma rstrip_body_lf (body : str) : rstrip (body ++ [LF]) = rstrip body.
Proof. unfold rstrip. by rewrite rstrip_by_snoc. Qed.

Lemma rstrip_chars_body_lf (body : str) :
  no_eol body →
  rstrip_chars [CR; LF] (rstrip_chars [LF] (body ++ [LF])) = body.
Proof.
  intros Hb. unfold rstrip_chars at 2. rewrite rstrip_by_snoc. simpl.
  fold (rstrip_chars [LF] body).
  rewrite (rstrip_chars_body [LF]) by (done || apply in_chars_lf_inv).
  by rewrite rstrip_chars_body by (done || apply in_chars_crlf_inv).
Qed.

Lemma rstrip_chars_body_none (body : str) :
  no_eol body → rstrip_chars [CR; LF] (rstrip_chars [LF] body) = body.
Proof.
  intros Hb.
  rewrite (rstrip_chars_body [LF]) by (done || apply in_chars_lf_inv).
  by rewrite rstrip_chars_body by (done || apply in_chars_crlf_inv).
Qed.

(** The loop body on a line that ends in its only line feed. *)
Lemma fix_line_body_lf (body : str) :
  no_eol body →
  fix_line (body ++ [LF])
  = if decide (body ≠ [] ∧ all_space body) then (W293, [LF])
    else if decide (rstrip body = body) then (Clean, body ++ [LF])
    else (W291, rstrip body ++ [LF]).
Proof.
  intros Hb.
  assert (strip (body ++ [LF]) = [] ∧ 1 < length (body ++ [LF])
          ↔ body ≠ [] ∧ all_space body) as Hblank.
  { rewrite strip_nil, Forall_app, Forall_singleton, length_app. simpl.
    unfold all_space. destruct body as [|c body]; simpl.
    - split; [lia|tauto].
    - split; [intros [[Hws _] _]; by split|intros [_ Hws]; split_and!; [done..|lia]]. }
  destruct (fix_lineP (body ++ [LF])) as [Hs Hl|Hn Hr|Hn Hr].
  - rewrite decide_True by by apply Hblank.
    unfold endswith. by rewrite bool_decide_eq_true_2 by by apply suffix_app_r.
  - rewrite Hblank in Hn. rewrite decide_False by done.
    rewrite rstrip_body_lf, rstrip_chars_body_lf in Hr by done.
    rewrite decide_False by done. by rewrite rstrip_body_lf, eol_body_lf.
  - rewrite Hblank in Hn. rewrite decide_False by done.
    rewrite rstrip_body_lf, rstrip_chars_body_lf in Hr by done.
    by rewrite decide_True.
Qed.

(** The loop body on a last line without line feed. *)
Lemma fix_line_body (body : str) :
  no_eol body →
  fix_line body
  = if decide (1 < length body ∧ all_space body) then (W293, [])
    else if decide (rstrip body = body) then (Clean, body)
    else (W291, rstrip body).
Proof.
  intros Hb.
  assert (strip body = [] ∧ 1 < length body
          ↔ 1 < length body ∧ all_space body) as Hblank.
  { rewrite strip_nil. unfold all_space. tauto. }
  pose proof (eol_body body Hb) as Heol.
  destruct (fix_lineP body) as [Hs Hl|Hn Hr|Hn Hr].
  - rewrite decide_True by by apply Hblank.
    unfold eol in Heol. destruct (endswith body [CR; LF]); [done|].
    by destruct (endswith body [LF]).
  - rewrite Hblank in Hn. rewrite decide_False by done.
    rewrite rstrip_chars_body_none in Hr by done.
    rewrite decide_False by done. by rewrite Heol, app_nil_r.
  - rewrite Hblank in Hn. rewrite decide_False by done.
    rewrite rstrip_chars_body_none in Hr by done.
    by rewrite decide_True.
Qed.

Lemma all_space_rstrip (body : str) : all_space body ↔ rstrip body = [].
Proof. unfold all_space, rstrip. by rewrite rstrip_by_nil. Qed.

(** X2. On the lines [readlines] returns (at most one line feed, at the
    end, and no carriage return) the loop body always leaves the line with
    its trailing whitespace removed, followed by its line feed if it had
    one, whichever rule it counted or none. *)
Theorem read_line_rewritten (body : str) :
  no_eol body →
  new_line (body ++ [LF]) = rstrip body ++ [LF]
  ∧ new_line body = rstrip body.
Proof.
  intros Hb. unfold new_line.
  rewrite fix_line_body_lf, fix_line_body by done. split.
  - destruct (decide (body ≠ [] ∧ all_space body)) as [[_ Hws]|_].
    { apply all_space_rstrip in Hws. by rewrite Hws. }
    destruct (decide (rstrip body = body)) as [->|]; done.
  - destruct (decide (1 < length body ∧ all_space body)) as [[_ Hws]|_].
    { apply all_space_rstrip in Hws. by rewrite Hws. }
    destruct (decide (rstrip body = body)) as [->|]; done.
Qed.

(** X3. On a line ending in its only line feed the rules are the checks
    they are named after: W293 for a non-empty body of whitespace only,
    W291 for a body that ends in whitespace and is not whitespace only,
    no rule for a body that does not end in whitespace. *)
Theorem read_line_classified (body : str) :
  no_eol body →
  ((fix_line (body ++ [LF])).1 = W293 ↔ body ≠ [] ∧ all_space body)
  ∧ ((fix_line (body ++ [LF])).1 = W291
     ↔ rstrip body ≠ body ∧ ¬ all_space body)
  ∧ ((fix_line (body ++ [LF])).1 = Clean ↔ rstrip body = body).
Proof.
  intros Hb. rewrite fix_line_body_lf by done.
  destruct (decide (body ≠ [] ∧ all_space body)) as [[Hne Hws]|Hn]; simpl.
  - pose proof Hws as Hr%all_space_rstrip. split_and!.
    + done.
    + split; [done|tauto].
    + split; [done|]. intros Heq. rewrite Hr in Heq. done.
  - destruct (decide (rstrip body = body)) as [Heq|Hneq]; simpl.
    + split_and!; try done. split; [done|tauto].
    + split_and!; try done. split; [intros _|done]. split; [done|].
      intros Hws. pose proof Hws as Hr%all_space_rstrip.
      destruct body; [done|]. apply Hn. done.
Qed.

(** ** The file a call leaves *)

Lemma ink_app (s t : str) : ink (s ++ t) = ink s ++ ink t.
Proof. unfold ink. apply List.filter_app. Qed.

Lemma ink_all_space (s : str) : all_space s → ink s = [].
Proof.
  unfold ink. induction 1 as [|c s Hc _ IH]; simpl; [done|]. by rewrite Hc.
Qed.

Lemma ink_rstrip (s : str) : ink (rstrip s) = ink s.
Proof.
  destruct (rstrip_by_split isspace s) as (t & Hs & Ht). fold (rstrip s) in Hs.
  rewrite Hs at 2. by rewrite ink_app, (ink_all_space t), app_nil_r.
Qed.

Lemma ink_new_line (line : str) : ink (new_line line) = ink line.
Proof. by rewrite <-ink_rstrip, rstrip_new_line, ink_rstrip. Qed.

Lemma ink_concat_new_line (lines : list str) :
  ink (concat (map new_line lines)) = ink (concat lines).
Proof.
  induction lines as [|line lines IH]; simpl; [done|].
  by rewrite !ink_app, ink_new_line, IH.
Qed.

Lemma ink_universal_newlines (after_cr : bool) (s : str) :
  ink (universal_newlines after_cr s) = ink s.
Proof.
  revert after_cr. induction s as [|c s IH]; intros after_cr; simpl; [done|].
  repeat case_bool_decide; subst; simpl.
  - apply IH.
  - destruct after_cr; simpl; apply IH.
  - unfold ink in *. simpl. by rewrite IH.
Qed.

Lemma concat_split_lines (s : str) : concat (split_lines s) = s.
Proof.
  induction s as [|c s IH]; simpl; [done|].
  case_bool_decide; subst; simpl; [by rewrite IH|].
  destruct (split_lines s) as [|l ls]; simpl in *; by rewrite <-IH.
Qed.

Lemma ink_readlines (content : str) : ink (concat (readlines content)) = ink content.
Proof.
  unfold readlines. by rewrite concat_split_lines, ink_universal_newlines.
Qed.

(** Every line of a text is a body without line break, with or without a
    line feed after it. *)
Lemma text_lines_elem (lines : list str) (line : str) :
  text_lines lines → line ∈ lines →
  ∃ body, no_eol body ∧ (line = body ++ [LF] ∨ line = body).
Proof.
  induction 1 as [|body Hb|body rest Hb _ IH].
  - by intros ?%elem_of_nil.
  - intros ->%list_elem_of_singleton. exists body. auto.
  - intros [->|Hin]%elem_of_cons; [exists body; auto|by apply IH].
Qed.

Lemma without_trailing_new_line (lines : list str) (line : str) :
  text_lines lines → line ∈ lines → new_line line = without_trailing line.
Proof.
  intros Ht Hin.
  destruct (text_lines_elem _ _ Ht Hin) as (body & Hb & [-> | ->]).
  - unfold new_line, without_trailing.
    rewrite fix_line_body_lf, rstrip_body_lf, eol_body_lf by done.
    destruct (decide (body ≠ [] ∧ all_space body)) as [[_ Hws]|_].
    { apply all_space_rstrip in Hws. by rewrite Hws. }
    destruct (decide (rstrip body = body)) as [->|]; done.
  - unfold new_line, without_trailing.
    rewrite fix_line_body, eol_body, app_nil_r by done.
    destruct (decide (1 < length body ∧ all_space body)) as [[_ Hws]|_].
    { apply all_space_rstrip in Hws. by rewrite Hws. }
    destruct (decide (rstrip body = body)) as [->|]; done.
Qed.

Lemma map_without_trailing (lines : list str) :
  text_lines lines → map new_line lines = map without_trailing lines.
Proof.
  intros Ht. apply list_eq_Forall2, Forall2_fmap, Forall_Forall2_diag.
  apply Forall_forall. intros line Hin.
  by apply (without_trailing_new_line lines).
Qed.

(** X4. A call on an ordinary file leaves it either as it was, when no
    line of it ends in whitespace, or holding each of its lines without
    the trailing whitespace; either way no line of the file then ends in
    whitespace, and its characters other than whitespace are the same, in
    the same order. *)
Theorem file_left_without_trailing_whitespace (w : world) (filepath content : str) :
  files w !! filepath = Some (Regular content) →
  ∃ content',
    files (fix_whitespace_in_file w filepath).1 !! filepath
    = Some (Regular content')
    ∧ content'
      = (if decide (Forall (λ line, without_trailing line = line)
                           (readlines content))
         then content
         else concat (map without_trailing (readlines content)))
    ∧ Forall (λ line, without_trailing line = line) (readlines content')
    ∧ ink content' = ink content.
Proof.
  intros Hf.
  assert (read_file w filepath = inr (readlines content)) as Hr
    by (unfold read_file; by rewrite Hf).
  pose proof (readlines_text content) as Ht.
  assert (Forall (λ line, without_trailing line = line) (readlines content)
          ↔ map new_line (readlines content) = readlines content) as Hiff.
  { rewrite map_without_trailing by done. split.
    - intros Hall. apply list_eq_Forall2, Forall2_fmap_l, Forall_Forall2_diag.
      done.
    - intros Heq. apply Forall_forall. intros line Hin.
      apply list_elem_of_lookup in Hin as [i Hi].
      apply (f_equal (.!! i)) in Heq. rewrite list_lookup_fmap, Hi in Heq.
      by injection Heq. }
  assert (∀ c, Forall (λ line, (fix_line line).1 = Clean) (readlines c) →
               Forall (λ line, without_trailing line = line) (readlines c))
    as Hclean.
  { intros c Hc. apply Forall_forall. intros line Hin.
    rewrite Forall_forall in Hc.
    rewrite <-(without_trailing_new_line (readlines c))
      by (done || apply readlines_text).
    apply fix_line_clean_id. by apply Hc. }
  destruct (fix_whitespace_in_file_cases w filepath _ Hr)
    as [[Heq ->]|[[Hne (e & He & _)]|(Hne & Hw & ->)]]; cbn [fst files].
  - exists content. rewrite decide_True by by apply Hiff.
    split_and!; [done..| |done]. by apply Hiff.
  - exfalso. unfold write_file in He. by rewrite Hf in He.
  - exists (concat (map new_line (readlines content))).
    rewrite lookup_insert_eq.
    rewrite decide_False by (by rewrite Hiff).
    split_and!; [done|by rewrite map_without_trailing| |].
    + apply Hclean, reread_clean.
    + by rewrite ink_concat_new_line, ink_readlines.
Qed.

(** ** Counts *)

Lemma count_changed (lines : list str) :
  count_rule W293 lines + count_rule W291 lines
  = length (List.filter (λ line, bool_decide (new_line line ≠ line)) lines).
Proof.
  unfold count_rule. induction lines as [|line lines IH]; simpl; [done|].
  pose proof (fix_line_changed line) as Hch. fold (new_line line) in Hch.
  destruct ((fix_line line).1) eqn:Hrule; simpl.
  - rewrite bool_decide_eq_true_2 by (by apply Hch). simpl. lia.
  - rewrite bool_decide_eq_true_2 by (by apply Hch). simpl. lia.
  - rewrite bool_decide_eq_false_2 by (rewrite <-Hch; by intros []). done.
Qed.

Lemma fix_lines_length (lines : list str) :
  length (fix_lines lines).1.1 = length lines.
Proof. rewrite fix_lines_map. simpl. apply length_map. Qed.

(** X7. The loop keeps the number of lines, and the two counts a call
    returns never add up to more than the number of lines that differ
    after the loop; they add up to exactly that number unless opening the
    file for writing failed.  So no line is counted twice. *)
Theorem counts_are_changed_lines (w : world) (filepath : str) (lines : list str) :
  read_file w filepath = inr lines →
  let counts := (fix_whitespace_in_file w filepath).2 in
  let changed :=
    length (List.filter (λ line, bool_decide (new_line line ≠ line)) lines) in
  length (fix_lines lines).1.1 = length lines
  ∧ changed ≤ length lines
  ∧ counts.1 + counts.2 ≤ changed
  ∧ ((write_file w filepath (map new_line lines)).2 = None →
       counts.1 + counts.2 = changed).
Proof.
  intros Hr. cbv zeta. rewrite <-count_changed.
  split_and!; [apply fix_lines_length|apply rules_exclusive|..].
  - destruct (fix_whitespace_in_file_cases w filepath lines Hr)
      as [[Heq ->]|[[Hne (e & He & ->)]|(Hne & Hw & ->)]]; simpl; lia.
  - intros Hw.
    destruct (fix_whitespace_in_file_cases w filepath lines Hr)
      as [[Heq ->]|[[Hne (e & He & ->)]|(Hne & _ & ->)]]; simpl.
    + apply unchanged_iff_counts in Heq as [-> ->]. done.
    + congruence.
    + done.
Qed.

(** ** The whole run *)

Lemma sorted_elem (l : list str) (p : str) : p ∈ sorted l ↔ p ∈ l.
Proof. by rewrite sorted_Permutation. Qed.

Lemma main_step_totals (w : world) (t : totals) (filepath : str) :
  let c := (outcome (files w) filepath).2 in
  (main_step (w, t) filepath).2
  = Totals (total_w293 t + c.1) (total_w291 t + c.2)
           (files_fixed t + if decide (1 ≤ c.1 + c.2) then 1 else 0).
Proof.
  cbv zeta. pose proof (fix_whitespace_in_file_outcome w filepath) as Hout.
  destruct (outcome (files w) filepath) as [[fs' evs] [a b]].
  unfold main_step. rewrite Hout. cbn [fst snd].
  destruct (decide (1 ≤ a + b)) as [Hab|Hab].
  - assert (bool_decide (0 < a) || bool_decide (0 < b) = true) as ->.
    { apply orb_true_iff. rewrite !bool_decide_eq_true. lia. }
    simpl. by rewrite Nat.add_1_r.
  - assert (bool_decide (0 < a) || bool_decide (0 < b) = false) as ->.
    { apply orb_false_iff. rewrite !bool_decide_eq_false. lia. }
    assert (a = 0 ∧ b = 0) as [-> ->] by lia.
    destruct t. simpl. by rewrite !Nat.add_0_r.
Qed.

(** The totals of the loop are sums over the calls, also over those that
    the guard of the loop passes over. *)
Lemma main_loop_totals (paths : list str) : ∀ (w : world) (t : totals),
  let cs := call_counts (files w) paths in
  (foldl main_step (w, t) paths).2
  = Totals (total_w293 t + sum_list (map fst cs))
           (total_w291 t + sum_list (map snd cs))
           (files_fixed t
            + length (List.filter (λ c, bool_decide (1 ≤ c.1 + c.2)) cs)).
Proof.
  induction paths as [|p paths IH]; intros w t; cbn [foldl call_counts].
  - simpl. destruct t. simpl. by rewrite !Nat.add_0_r.
  - pose proof (main_step_totals w t p) as Ht. cbv zeta in Ht.
    destruct (main_step_files w t p) as [Hfs _].
    destruct (main_step (w, t) p) as [w1 t1]. cbn [fst snd] in Ht, Hfs.
    subst t1. rewrite IH. cbv zeta. rewrite Hfs.
    destruct (outcome (files w) p) as [[fs1 evs] [a b]]. simpl.
    destruct (decide (1 ≤ a + b)) as [Hab|Hab].
    + rewrite bool_decide_eq_true_2 by done. simpl.
      f_equal; rewrite ?Nat.add_assoc; try done; lia.
    + rewrite bool_decide_eq_false_2 by done. simpl.
      f_equal; rewrite ?Nat.add_assoc; try done; lia.
Qed.

(** X8. The totals the driver reports are the sums of the counts its
    calls returned, and the number of files fixed is the number of calls
    that returned a count; so that number is at most the number of files
    and at most the total of fixes, and it is zero exactly when the total
    is. *)
Theorem totals_are_sums (w : world) (python_files : list str) :
  let t := (main_loop w python_files).2 in
  let cs := call_counts (files w) (sorted python_files) in
  total_w293 t = sum_list (map fst cs)
  ∧ total_w291 t = sum_list (map snd cs)
  ∧ files_fixed t
    = length (List.filter (λ c, bool_decide (1 ≤ c.1 + c.2)) cs)
  ∧ files_fixed t ≤ length python_files
  ∧ files_fixed t ≤ total_w293 t + total_w291 t
  ∧ (files_fixed t = 0 ↔ total_w293 t + total_w291 t = 0).
Proof.
  cbv zeta. unfold main_loop. rewrite main_loop_totals. cbv zeta. simpl.
  assert (length (call_counts (files w) (sorted python_files))
          = length python_files) as Hlen.
  { rewrite <-(Permutation_length (sorted_Permutation python_files)).
    generalize (files w). induction (sorted python_files) as [|p l IH];
      intros fs; simpl; [done|]. by rewrite IH. }
  revert Hlen. generalize (call_counts (files w) (sorted python_files)).
  intros cs <-.
  assert (length (List.filter (λ c, bool_decide (1 ≤ c.1 + c.2)) cs) ≤ length cs
          ∧ length (List.filter (λ c, bool_decide (1 ≤ c.1 + c.2)) cs)
            ≤ sum_list (map fst cs) + sum_list (map snd cs)
          ∧ (length (List.filter (λ c, bool_decide (1 ≤ c.1 + c.2)) cs) = 0
             ↔ sum_list (map fst cs) + sum_list (map snd cs) = 0)) as (H1 & H2 & H3).
  { induction cs as [|[a b] cs (IH1 & IH2 & IH3)]; simpl; [done|].
    case_bool_decide; simpl in *; split_and!; lia. }
  split_and!; done.
Qed.

Lemma join_suffix (a b : str) : b `suffix_of` join a b.
Proof.
  unfold join. destruct (startswith b (py "/")); [done|].
  destruct (_ || _); [by apply suffix_app_r|].
  by apply suffix_app_r, suffix_app_r.
Qed.

Lemma find_python_files_suffix (root_dir : str) (t : tree) (p : str) :
  p ∈ find_python_files root_dir t → py ".py" `suffix_of` p.
Proof.
  intros (ds & file & _ & _ & Hpy & ->)%find_python_files_elem.
  unfold endswith in Hpy. apply bool_decide_eq_true in Hpy.
  unfold path_of. etrans; [exact Hpy|apply join_suffix].
Qed.

(** X10. Every path the discoverer returns ends in [.py], whatever the
    root and the names of the directories on the way. *)
Theorem discovered_paths_end_in_py (root_dir : str) (t : tree) (p : str) :
  p ∈ find_python_files root_dir t → py ".py" `suffix_of` p.
Proof. apply find_python_files_suffix. Qed.

(** X12. The loop is idempotent on any list of strings, also on lines
    that hold carriage returns: run on its own result it changes no line
    and counts nothing. *)
Theorem loop_idempotent (lines : list str) :
  fix_lines (fix_lines lines).1.1 = ((fix_lines lines).1.1, 0, 0).
Proof.
  rewrite (fix_lines_map lines). cbn [fst]. rewrite fix_lines_map.
  assert (Forall (λ line, (fix_line line).1 = Clean) (map new_line lines))
    as Hc.
  { apply Forall_forall. intros line (line0 & -> & _)%list_elem_of_fmap.
    unfold new_line. by rewrite fix_line_idemp. }
  destruct (clean_count_0 _ Hc) as [-> ->].
  apply map_new_line_id in Hc. by rewrite Hc.
Qed.

(** X13. The loop body changes the terminator of a line in one case only:
    when the blank-line rule applies to a line ending in carriage return +
    line feed, which is left with a bare line feed.  In every other case
    a line keeps the terminator it had, be it carriage return + line feed,
    line feed or none. *)
Theorem terminator_after_fix (line : str) :
  eol (new_line line)
  = if decide ((fix_line line).1 = W293 ∧ eol line = [CR; LF])
    then [LF] else eol line.
Proof.
  destruct (decide ((fix_line line).1 = W293 ∧ eol line = [CR; LF]))
    as [[Hrule Heol]|Hn].
  - pose proof (eol_suffix line) as Hs. rewrite Heol in Hs.
    unfold new_line. destruct (fix_lineP line) as [_ _|? ?|? ?]; try done.
    simpl. unfold endswith. rewrite bool_decide_eq_true_2; [done|].
    by apply (suffix_cons_l _ _ CR).
  - apply terminator_preserved.
    destruct (decide ((fix_line line).1 = W293)); [right|left]; tauto.
Qed.

(** The events of one call: at most an opening of its own file for
    writing, and prints on standard output. *)
Lemma outcome_events (fs : gmap str node) (filepath : str) :
  Forall (λ ev, match ev with
                | EPrint on _ => on = Stdout
                | EOpenW p => p = filepath
                end) (outcome fs filepath).1.2.
Proof.
  unfold outcome. rewrite fix_whitespace_in_file_eq.
  unfold read_file, write_file, print. simpl.
  destruct (fs !! filepath) as [[e|content e|content]|]; simpl;
    try case_bool_decide; simpl; by repeat constructor.
Qed.

Lemma report_events (paths : list str) : ∀ fs : gmap str node,
  Forall (λ ev, match ev with
                | EPrint on _ => on = Stdout
                | EOpenW p => p ∈ paths
                end) (report fs paths).
Proof.
  induction paths as [|q paths IH]; intros fs; cbn [report]; [constructor|].
  pose proof (outcome_events fs q) as Hev.
  destruct (outcome fs q) as [[fs' evs] [a b]]. cbn [fst snd] in Hev.
  rewrite !Forall_app. split_and!.
  - eapply Forall_impl; [exact Hev|]. intros [on text|p]; [done|].
    intros ->. constructor.
  - destruct (decide (1 ≤ a + b)); by repeat constructor.
  - eapply Forall_impl; [apply IH|]. intros [on text|p]; [done|].
    by right.
Qed.

Lemma main_log (w : world) :
  ∃ header footer,
    log (main w)
    = log w ++ header
      ++ report (files w) (sorted (find_python_files (py ".") (cwd w)))
      ++ footer
    ∧ Forall (λ ev, ∃ text, ev = EPrint Stdout text) (header ++ footer).
Proof.
  unfold main, main_loop. set (paths := sorted _).
  set (w0 := print (print w _) _).
  destruct (main_loop_report paths w0 (Totals 0 0 0)) as [Hlog _].
  destruct (foldl main_step (w0, _) paths) as [w1 t1]. cbn [fst] in Hlog.
  eexists [_; _], [_; _; _; _; _; _]. split.
  - unfold summary, print. cbn [log]. rewrite Hlog. unfold w0, print.
    cbn [log files]. by rewrite <-!app_assoc.
  - repeat constructor; by eexists.
Qed.

(** X14. A run prints on standard output only, never on the error
    stream, and the only files it opens for writing are paths the
    discoverer listed. *)
Theorem run_writes_only_listed_files (w : world) :
  Forall (λ ev, match ev with
                | EPrint on _ => on = Stdout
                | EOpenW p => p ∈ find_python_files (py ".") (cwd w)
                end) (new_events w (main w)).
Proof.
  destruct (main_log w) as (header & footer & Hlog & Hhf).
  unfold new_events. rewrite Hlog, drop_app_length.
  apply Forall_app in Hhf as [Hh Hf]. rewrite !Forall_app. split_and!.
  - eapply Forall_impl; [exact Hh|]. by intros ev [text ->].
  - eapply Forall_impl; [apply report_events|].
    intros [on text|p]; [done|]. apply sorted_elem.
  - eapply Forall_impl; [exact Hf|]. by intros ev [text ->].
Qed.

(** ** Instances *)

(** The line [foo  ] with and without line feed. *)
Lemma read_line_rewritten_witness :
  no_eol (py "foo  ")
  ∧ new_line (py "foo  " ++ [LF]) = rstrip (py "foo  ") ++ [LF].
Proof.
  assert (no_eol (py "foo  ")) as Hb by (by repeat constructor).
  split; [exact Hb|]. exact (proj1 (read_line_rewritten _ Hb)).
Defined.

Lemma read_line_classified_witness :
  no_eol (py "foo  ")
  ∧ ((fix_line (py "foo  " ++ [LF])).1 = Clean
     ↔ rstrip (py "foo  ") = py "foo  ").
Proof.
  assert (no_eol (py "foo  ")) as Hb by (by repeat constructor).
  split; [exact Hb|]. exact (proj2 (proj2 (read_line_classified _ Hb))).
Defined.

(** The file of the small project that needs fixing. *)
Lemma file_left_without_trailing_whitespace_witness :
  let content := py "import os  " ++ [LF] ++ [LF] ++ py "   " ++ [LF]
                 ++ py "x = 1" ++ [LF] in
  files small_world !! py "./a.py" = Some (Regular content)
  ∧ ∃ content',
      files (fix_whitespace_in_file small_world (py "./a.py")).1 !! py "./a.py"
      = Some (Regular content')
      ∧ ink content' = ink content.
Proof.
  cbv zeta.
  assert (files small_world !! py "./a.py"
          = Some (Regular (py "import os  " ++ [LF] ++ [LF] ++ py "   " ++ [LF]
                           ++ py "x = 1" ++ [LF]))) as Hf by (by vm_compute).
  split; [exact Hf|].
  destruct (file_left_without_trailing_whitespace _ _ _ Hf)
    as (content' & H1 & _ & _ & H4).
  exists content'. split; [exact H1|exact H4].
Defined.

Lemma counts_are_changed_lines_witness :
  read_file (one_file (py "x  " ++ [LF])) (py "./a.py")
  = inr [py "x  " ++ [LF]]
  ∧ length (fix_lines [py "x  " ++ [LF]]).1.1 = 1.
Proof.
  assert (read_file (one_file (py "x  " ++ [LF])) (py "./a.py")
          = inr [py "x  " ++ [LF]]) as Hr by (by vm_compute).
  split; [exact Hr|]. exact (proj1 (counts_are_changed_lines _ _ _ Hr)).
Defined.

Lemma discovered_paths_end_in_py_witness :
  py "./pkg/m.py" ∈ find_python_files (py ".") small_tree
  ∧ py ".py" `suffix_of` py "./pkg/m.py".
Proof.
  assert (py "./pkg/m.py" ∈ find_python_files (py ".") small_tree) as Hin.
  { apply list_elem_of_In. vm_compute. auto. }
  split; [exact Hin|]. exact (discovered_paths_end_in_py _ _ _ Hin).
Defined.

(** * Writing back, and prints that fail *)

(** ** What a call opens and prints *)

(** X5. A call opens for writing at most once, and then the path it was
    given; it prints at most one line, on standard output, and only when
    it returns (0, 0); the directory tree stays as it is and the log is
    only added to. *)
Theorem call_opens_only_its_path (w : world) (filepath : str) :
  let w' := (fix_whitespace_in_file w filepath).1 in
  log w `prefix_of` log w'
  ∧ cwd w' = cwd w
  ∧ ∃ opens prints,
      new_events w w' = opens ++ prints
      ∧ (opens = [] ∨ opens = [EOpenW filepath])
      ∧ (prints = []
         ∨ (fix_whitespace_in_file w filepath).2 = (0, 0)
           ∧ ∃ text, prints = [EPrint Stdout text]).
Proof.
  cbv zeta. destruct (read_file w filepath) as [e|lines] eqn:Hr.
  - unfold fix_whitespace_in_file. rewrite Hr. unfold print. simpl.
    split_and!; [by eexists|done|]. rewrite new_events_app.
    eexists [], [_]. split_and!; [done|by left|right]. split; [done|by eexists].
  - destruct (fix_whitespace_in_file_cases w filepath lines Hr)
      as [[Heq ->]|[[Hne (e & He & ->)]|(Hne & Hw & ->)]]; cbn [fst snd log cwd].
    + split_and!; [done..|]. rewrite new_events_refl.
      exists [], []. split_and!; [done|by left|by left].
    + split_and!; [by eexists|done|]. rewrite new_events_app.
      eexists [_], [_]. split_and!; [done|by right|right].
      split; [done|by eexists].
    + split_and!; [by eexists|done|]. rewrite new_events_app.
      eexists [_], []. split_and!; [done|by right|by left].
Qed.

(** X11. A run never opens for writing a path that does not end in
    [.py]. *)
Theorem run_opens_only_py_paths (w : world) (p : str) :
  EOpenW p ∈ new_events w (main w) → py ".py" `suffix_of` p.
Proof.
  destruct (main_log w) as (header & footer & Hlog & Hhf).
  unfold new_events. rewrite Hlog, drop_app_length.
  apply Forall_app in Hhf as [Hh Hf].
  rewrite !elem_of_app. intros [Hin|[Hin|Hin]].
  - rewrite Forall_forall in Hh. by destruct (Hh _ Hin).
  - pose proof (report_events (sorted (find_python_files (py ".") (cwd w)))
                  (files w)) as Hev.
    rewrite Forall_forall in Hev. apply Hev in Hin.
    rewrite sorted_elem in Hin. by apply find_python_files_suffix in Hin.
  - rewrite Forall_forall in Hf. by destruct (Hf _ Hin).
Qed.

(** The one file of the small project that is rewritten. *)
Lemma run_opens_only_py_paths_witness :
  EOpenW (py "./a.py") ∈ new_events small_world (main small_world)
  ∧ py ".py" `suffix_of` py "./a.py".
Proof.
  assert (EOpenW (py "./a.py") ∈ new_events small_world (main small_world))
    as Hin.
  { apply list_elem_of_In. vm_compute. auto. }
  split; [exact Hin|]. exact (run_opens_only_py_paths _ _ Hin).
Defined.

(** ** Writing back *)

Lemma universal_newlines_length (after_cr : bool) (s : str) :
  length (universal_newlines after_cr s) ≤ length s.
Proof.
  revert after_cr. induction s as [|c s IH]; intros after_cr; simpl; [done|].
  repeat case_bool_decide; simpl.
  - specialize (IH true). lia.
  - destruct after_cr; simpl; specialize (IH false); lia.
  - specialize (IH false). lia.
Qed.

Lemma sublist_same_length (l k : str) :
  l `sublist_of` k → length k ≤ length l → l = k.
Proof.
  induction 1 as [|x l k _ IH|x l k Hs IH]; simpl; intros Hlen; [done|..].
  - f_equal. apply IH. lia.
  - apply sublist_length in Hs. lia.
Qed.

(** A changed line is shorter, so the text written back is shorter than
    the text read. *)
Lemma concat_new_line_shorter (lines : list str) :
  Exists (λ line, new_line line ≠ line) lines →
  length (concat (map new_line lines)) < length (concat lines).
Proof.
  assert (length (concat (map new_line lines)) ≤ length (concat lines)) as Hle.
  { induction lines as [|line lines IH]; simpl; [done|].
    rewrite !length_app. pose proof (sublist_length _ _ (new_line_sublist line)).
    lia. }
  induction 1 as [line lines Hne|line lines _ IH]; simpl; rewrite !length_app.
  - pose proof (new_line_sublist line) as Hs.
    assert (length (new_line line) < length line).
    { apply Nat.nle_gt. intros Hlen. by apply Hne, sublist_same_length. }
    assert (length (concat (map new_line lines)) ≤ length (concat lines)).
    { clear. induction lines as [|line lines IH]; simpl; [done|].
      rewrite !length_app.
      pose proof (sublist_length _ _ (new_line_sublist line)). lia. }
    lia.
  - pose proof (sublist_length _ _ (new_line_sublist line)).
    assert (length (concat (map new_line lines)) ≤ length (concat lines)) as Hle'.
    { clear. induction lines as [|l lines IH]; simpl; [done|].
      rewrite !length_app.
      pose proof (sublist_length _ _ (new_line_sublist l)). lia. }
    specialize (IH Hle'). lia.
Qed.

(** C5, as the code has it.  The file is opened for writing exactly when
    some line changed.  When no line matches a rule the world is left as
    it is and (0, 0) is returned, and as long as the file is not opened
    for writing no file changes.  When a line changed in an ordinary file,
    the file then holds the rewritten lines, which differ from what it
    held, and the counts returned are those of the loop, not both zero.
    When a line changed but the file could not be written, (0, 0) is
    returned all the same. *)
Theorem write_iff_changed (w : world) (filepath : str) (lines : list str) :
  read_file w filepath = inr lines →
  let w' := (fix_whitespace_in_file w filepath).1 in
  let counts := (fix_whitespace_in_file w filepath).2 in
  (EOpenW filepath ∈ new_events w w'
     ↔ Exists (λ line, new_line line ≠ line) lines)
  ∧ (Forall (λ line, (fix_line line).1 = Clean) lines →
       w' = w ∧ counts = (0, 0))
  ∧ (EOpenW filepath ∉ new_events w w' → files w' = files w)
  ∧ (∀ content,
       files w !! filepath = Some (Regular content) →
       Exists (λ line, new_line line ≠ line) lines →
       files w'
       = <[filepath := Regular (concat (map new_line lines))]> (files w)
       ∧ concat (map new_line lines) ≠ content
       ∧ counts = (count_rule W293 lines, count_rule W291 lines)
       ∧ counts ≠ (0, 0))
  ∧ (∀ e,
       Exists (λ line, new_line line ≠ line) lines →
       (write_file w filepath (map new_line lines)).2 = Some e →
       counts = (0, 0)).
Proof.
  intros Hr. cbv zeta.
  assert (∀ c fs l, EOpenW filepath
                    ∈ new_events w (World c fs (log w ++ EOpenW filepath :: l)))
    as Hopen.
  { intros c fs l. rewrite new_events_app. constructor. }
  assert (∀ content, files w !! filepath = Some (Regular content) →
            Exists (λ line, new_line line ≠ line) lines →
            concat (map new_line lines) ≠ content) as Hdiff.
  { intros content Hf Hex Heq. apply concat_new_line_shorter in Hex.
    unfold read_file in Hr. rewrite Hf in Hr. injection Hr as <-.
    rewrite Heq in Hex. unfold readlines in Hex.
    rewrite concat_split_lines in Hex.
    pose proof (universal_newlines_length false content). lia. }
  assert (∀ content, files w !! filepath = Some (Regular content) →
            (write_file w filepath (map new_line lines)).2 = None) as Hreg.
  { intros content Hf. unfold write_file. by rewrite Hf. }
  pose proof (map_new_line_changed lines) as Hex.
  pose proof (map_new_line_id lines) as Hid.
  destruct (fix_whitespace_in_file_cases w filepath lines Hr)
    as [[Heq ->]|[[Hne (e & He & ->)]|(Hne & Hw & ->)]]; cbn [fst snd files].
  - rewrite new_events_refl. split_and!.
    + rewrite Hex. split; [by intros ?%elem_of_nil|done].
    + done.
    + done.
    + intros content _ Hch%Hex. done.
    + done.
  - split_and!.
    + rewrite Hex. split; [done|intros _; apply Hopen].
    + intros Hc%Hid. done.
    + intros Hno. exfalso. apply Hno, Hopen.
    + intros content Hf _. apply Hreg in Hf. congruence.
    + done.
  - split_and!.
    + rewrite Hex. split; [done|intros _; apply Hopen].
    + intros Hc%Hid. done.
    + intros Hno. exfalso. apply Hno, Hopen.
    + intros content Hf Hch. split_and!; [done|by apply Hdiff|done|].
      intros [= H293 H291]. by apply Hne, unchanged_iff_counts.
    + intros e _ He. congruence.
Qed.

(** C5, as stated, fails on a file that cannot be opened for writing: a
    line of it matches a rule and changes in the loop, yet the file is not
    written back, and both returned counts are zero. *)
Lemma changed_but_not_written_back :
  let lines := [py "x  " ++ [LF]] in
  let r := fix_whitespace_in_file read_only_file (py "./a.py") in
  read_file read_only_file (py "./a.py") = inr lines
  ∧ Exists (λ line, new_line line ≠ line) lines
  ∧ ¬ Forall (λ line, (fix_line line).1 = Clean) lines
  ∧ files r.1 = files read_only_file
  ∧ r.2 = (0, 0).
Proof.
  cbv zeta. split_and!.
  - by vm_compute.
  - apply Exists_cons_hd. by vm_compute.
  - intros Hc. apply Forall_cons in Hc as [Hc _]. by vm_compute in Hc.
  - by vm_compute.
  - by vm_compute.
Qed.

(** The file [a.py] holding one line with trailing spaces holds the line
    without them after the call. *)
Lemma write_iff_changed_witness :
  let w := one_file (py "x  " ++ [LF]) in
  read_file w (py "./a.py") = inr [py "x  " ++ [LF]]
  ∧ files (fix_whitespace_in_file w (py "./a.py")).1 !! py "./a.py"
    = Some (Regular (py "x" ++ [LF])).
Proof.
  cbv zeta.
  assert (read_file (one_file (py "x  " ++ [LF])) (py "./a.py")
          = inr [py "x  " ++ [LF]]) as Hr by (by vm_compute).
  assert (files (one_file (py "x  " ++ [LF])) !! py "./a.py"
          = Some (Regular (py "x  " ++ [LF]))) as Hf by (by vm_compute).
  assert (Exists (λ line, new_line line ≠ line) [py "x  " ++ [LF]]) as Hex.
  { apply Exists_cons_hd. by vm_compute. }
  split; [exact Hr|].
  destruct (write_iff_changed _ _ _ Hr) as (_ & _ & _ & Hwritten & _).
  destruct (Hwritten _ Hf Hex) as (-> & _). by rewrite lookup_insert_eq.
Defined.

(** ** Prints that fail *)

Section stdout_facts.
Variable accepts : str → bool.

(** A failed opening leads to one [print], of the diagnostic, in the
    handler; before it nothing was printed and no file was changed. *)
Lemma open_fails_print (w : world) (filepath msg : str) :
  open_fails w filepath msg →
  ∃ w0,
    files w0 = files w
    ∧ printed_on Stdout (new_events w w0) = []
    ∧ printed_on Stderr (new_events w w0) = []
    ∧ fix_whitespace_in_file w filepath = (print w0 msg, (0, 0))
    ∧ new_events w (print w0 msg) = new_events w w0 ++ [EPrint Stdout msg]
    ∧ fix_whitespace_in_file_x accepts w filepath
      = bind (print_x accepts w0 msg) (λ w _, Returns w (0, 0)).
Proof.
  intros [e Hr|lines e Hr Hch Hw];
    unfold fix_whitespace_in_file, fix_whitespace_in_file_x; rewrite Hr.
  - exists w. rewrite new_events_refl. split_and!; try done.
    unfold print. by rewrite new_events_app.
  - destruct (fix_lines lines) as [[lines' a] b]. simpl in *.
    rewrite bool_decide_eq_true_2 by done.
    destruct (write_file w filepath lines') as [w' [e'|]] eqn:Hwf; [|done].
    simpl in Hw. injection Hw as ->. exists w'.
    unfold write_file in Hwf.
    destruct (files w !! filepath) as [[]|]; simplify_eq; unfold print; simpl;
      rewrite <-?app_assoc, !new_events_app; by split_and!.
Qed.


Lemma main_loop_x_halts (w w0 : world) (filepath : str) (e : exn) :
  fix_whitespace_in_file_x accepts w filepath = Raises w0 e →
  ∀ t rest, main_loop_x accepts w t (filepath :: rest) = Raises w0 e.
Proof.
  intros Hfix t rest. cbn [main_loop_x]. unfold main_step_x. by rewrite Hfix.
Qed.

(** A diagnostic that standard output refuses leaves the call, and the
    loop, as the exception of [print]; nothing is printed. *)
Lemma open_fails_raises (w : world) (filepath msg : str) :
  open_fails w filepath msg → accepts msg = false →
  ∃ w0,
    fix_whitespace_in_file_x accepts w filepath
    = Raises w0 (UnicodeEncodeError msg)
    ∧ printed_on Stdout (new_events w w0) = []
    ∧ printed_on Stderr (new_events w w0) = []
    ∧ ∀ t rest, main_loop_x accepts w t (filepath :: rest)
                = Raises w0 (UnicodeEncodeError msg).
Proof.
  intros (w0 & _ & Hout & Herr & _ & _ & Hx)%open_fails_print Hno.
  exists w0. unfold print_x in Hx. rewrite Hno in Hx. simpl in Hx.
  split_and!; [done..|]. by apply main_loop_x_halts.
Qed.

(** On a standard output that accepts every text the script is the one
    modelled first. *)
Hypothesis accepts_all : ∀ text, accepts text = true.

Lemma print_x_total (w : world) (text : str) :
  print_x accepts w text = Returns (print w text) tt.
Proof. unfold print_x. by rewrite accepts_all. Qed.

Lemma fix_whitespace_in_file_x_total (w : world) (filepath : str) :
  fix_whitespace_in_file_x accepts w filepath
  = Returns (fix_whitespace_in_file w filepath).1
            (fix_whitespace_in_file w filepath).2.
Proof.
  unfold fix_whitespace_in_file_x, fix_whitespace_in_file.
  destruct (read_file w filepath) as [e|lines]; [by rewrite print_x_total|].
  destruct (fix_lines lines) as [[lines' a] b].
  case_bool_decide; [|done].
  destruct (write_file w filepath lines') as [w' [e|]];
    [by rewrite print_x_total|done].
Qed.

Lemma main_loop_x_total (paths : list str) : ∀ (w : world) (t : totals),
  main_loop_x accepts w t paths
  = Returns (foldl main_step (w, t) paths).1 (foldl main_step (w, t) paths).2.
Proof.
  induction paths as [|p paths IH]; intros w t; cbn [main_loop_x foldl];
    [done|].
  unfold main_step_x, main_step. rewrite fix_whitespace_in_file_x_total.
  destruct (fix_whitespace_in_file w p) as [w' [a b]]. cbn [bind fst snd].
  destruct (_ || _); [rewrite print_x_total|]; cbn [bind]; apply IH.
Qed.

Lemma main_x_total (w : world) : main_x accepts w = Returns (main w) tt.
Proof.
  unfold main_x, main, main_loop, summary_x, summary.
  repeat (rewrite print_x_total; cbn [bind]).
  rewrite main_loop_x_total. cbn [bind].
  destruct (foldl main_step _ _) as [w' t]. cbn [fst snd].
  repeat (rewrite print_x_total; cbn [bind]). done.
Qed.

End stdout_facts.






